(** * flatland: the typed columnar importer of [internal/cache]

    A shallow embedding of [cache.go] (package [cache] of
    github.com/matjam/flatland) and the properties of its CSV import:
    the per-cell type probe [inferProbableTypeFromString], the per-field
    widening of [FieldTypes] while rows stream in, and what [Import]
    leaves in the [DataSetCache] on success and on each of its error
    returns.

    Go strings are byte strings: a [string] here, read as a list of
    bytes (each a [Z] below 256) wherever the code indexes it.  Slices
    are lists; [append] is list append; an index out of range is a
    run-time panic and is modelled as such. *)

From Stdlib Require Import ZArith Ascii String List Bool Lia DecimalString.
From stdpp Require Import base tactics option list.

Local Open Scope Z_scope.

(** The bytes of a Go string. *)
Definition ch (c : ascii) : Z := Z.of_N (N_of_ascii c).
Definition bytes (s : string) : list Z := map ch (list_ascii_of_string s).

(** ** The standard library's [strconv], as far as the probe calls it

    [strconv.ParseInt] and [strconv.ParseFloat] belong to Go's standard
    library, not to this repository.  They are modelled after
    [strconv/atoi.go] and [strconv/atof.go]; only the error result is
    used by the caller. *)
Module strconv.

(** The [Err] field of a [*strconv.NumError]. *)
Inductive NumError : Type :=
| ErrSyntax
| ErrRange
| ErrBase
| ErrBitSize.

Definition IntSize : Z := 64.
Definition maxUint64 : Z := 2 ^ 64 - 1.

(** [lower(c)] is [c | ('x' - 'X')]. *)
Definition lower (c : Z) : Z := Z.lor c 32.

Definition between (lo c hi : Z) : bool := (lo <=? c) && (c <=? hi).
Definition isDigit (c : Z) : bool := between (ch "0") c (ch "9").

(** [underscoreOK]: underscores only between digits or after a base
    prefix.  [saw] is the last character class seen: ['^'] at the
    start, ['0'] a digit (or base prefix), ['_'], or ['!']. *)
Fixpoint underscoreScan (hex : bool) (saw : Z) (s : list Z) : bool :=
  match s with
  | [] => negb (saw =? ch "_")
  | c :: s' =>
      if isDigit c || (hex && between (ch "a") (lower c) (ch "f"))
      then underscoreScan hex (ch "0") s'
      else if c =? ch "_"
      then if negb (saw =? ch "0") then false
           else underscoreScan hex (ch "_") s'
      else if saw =? ch "_" then false
      else underscoreScan hex (ch "!") s'
  end.

Definition underscoreOK (s : list Z) : bool :=
  let s :=
    match s with
    | c :: s' => if (c =? ch "-") || (c =? ch "+") then s' else s
    | [] => s
    end in
  match s with
  | c0 :: c1 :: s' =>
      if (c0 =? ch "0")
         && ((lower c1 =? ch "b") || (lower c1 =? ch "o") || (lower c1 =? ch "x"))
      then underscoreScan (lower c1 =? ch "x") (ch "0") s'
      else underscoreScan false (ch "^") s
  | _ => underscoreScan false (ch "^") s
  end.

(** The digit loop of [ParseUint]: [inl (n, underscores)] when the
    loop runs to the end, [inr (value, err)] on its early returns.
    [n] is a [uint64]; its wrap-around is written out. *)
Fixpoint parseUintLoop (base : Z) (base0 : bool) (cutoff maxVal : Z)
    (s : list Z) (n : Z) (underscores : bool) : (Z * bool) + (Z * NumError) :=
  match s with
  | [] => inl (n, underscores)
  | c :: s' =>
      if (c =? ch "_") && base0
      then parseUintLoop base base0 cutoff maxVal s' n true
      else
        let d :=
          if isDigit c then Some (c - ch "0")
          else if between (ch "a") (lower c) (ch "z")
               then Some (lower c - ch "a" + 10)
               else None in
        match d with
        | None => inr (0, ErrSyntax)
        | Some d =>
            if d >=? base then inr (0, ErrSyntax)
            else if n >=? cutoff then inr (maxVal, ErrRange)
            else
              let n := (n * base) mod 2 ^ 64 in
              let n1 := (n + d) mod 2 ^ 64 in
              if (n1 <? n) || (n1 >? maxVal) then inr (maxVal, ErrRange)
              else parseUintLoop base base0 cutoff maxVal s' n1 underscores
        end
  end.

(** [ParseUint(s, base, bitSize)]: the value and the error ([None]
    is Go's [nil]). *)
Definition ParseUint (s : list Z) (base bitSize : Z) : Z * option NumError :=
  match s with
  | [] => (0, Some ErrSyntax)
  | c0 :: _ =>
      let base0 := base =? 0 in
      let s0 := s in
      let prefixed : option (Z * list Z) :=
        if (2 <=? base) && (base <=? 36) then Some (base, s)
        else if base =? 0 then
          if c0 =? ch "0" then
            match s with
            | _ :: c1 :: _ :: _ =>
                if lower c1 =? ch "b" then Some (2, skipn 2 s)
                else if lower c1 =? ch "o" then Some (8, skipn 2 s)
                else if lower c1 =? ch "x" then Some (16, skipn 2 s)
                else Some (8, skipn 1 s)
            | _ => Some (8, skipn 1 s)
            end
          else Some (10, s)
        else None in
      match prefixed with
      | None => (0, Some ErrBase)
      | Some (base, s) =>
          let bitSize := if bitSize =? 0 then IntSize else bitSize in
          if (bitSize <? 0) || (bitSize >? 64) then (0, Some ErrBitSize)
          else
            let cutoff := maxUint64 / base + 1 in
            let maxVal := (2 ^ bitSize - 1) mod 2 ^ 64 in
            match parseUintLoop base base0 cutoff maxVal s 0 false with
            | inr (v, e) => (v, Some e)
            | inl (n, underscores) =>
                if underscores && negb (underscoreOK s0)
                then (0, Some ErrSyntax)
                else (n, None)
            end
      end
  end.

(** [ParseInt(s, base, bitSize)]. *)
Definition ParseInt (s : string) (base bitSize : Z) : Z * option NumError :=
  match bytes s with
  | [] => (0, Some ErrSyntax)
  | c0 :: s' =>
      let '(neg, s1) :=
        if c0 =? ch "+" then (false, s')
        else if c0 =? ch "-" then (true, s')
        else (false, c0 :: s') in
      let '(un, err) := ParseUint s1 base bitSize in
      match err with
      | Some ErrSyntax | Some ErrBase | Some ErrBitSize => (0, err)
      | _ =>
          let bitSize := if bitSize =? 0 then IntSize else bitSize in
          let cutoff := 2 ^ (bitSize - 1) in
          if negb neg && (un >=? cutoff) then (cutoff - 1, Some ErrRange)
          else if neg && (un >? cutoff) then (- cutoff, Some ErrRange)
          else (if neg then - un else un, None)
      end
  end.

(** *** [ParseFloat]

    The [float64] result is discarded by the caller and is not
    modelled; the model decides the error.  Go reads at most 19
    mantissa digits into a [uint64] for its fast paths and reads the
    digits again when those fail; here [readFloat] keeps every digit,
    and the rounding machinery is replaced by what it is documented
    to compute: [ErrRange] exactly when the literal is more than half
    a unit in the last place beyond the largest finite float. *)

Fixpoint commonPrefixLenIgnoreCase (s pre : list Z) : Z :=
  match s, pre with
  | c :: s', p :: pre' =>
      let c := if between (ch "A") c (ch "Z") then c + (ch "a" - ch "A") else c in
      if c =? p then 1 + commonPrefixLenIgnoreCase s' pre' else 0
  | _, _ => 0
  end.

Definition infinityPrefix (nsign : Z) (s : list Z) : option Z :=
  let n := commonPrefixLenIgnoreCase s (bytes "infinity") in
  let n := if (3 <? n) && (n <? 8) then 3 else n in
  if (n =? 3) || (n =? 8) then Some (nsign + n) else None.

(** [special]: the number of bytes of a leading (possibly signed)
    "inf", "infinity" or an unsigned "nan", in any letter case. *)
Definition special (s : list Z) : option Z :=
  match s with
  | [] => None
  | c0 :: s' =>
      if (c0 =? ch "+") || (c0 =? ch "-") then infinityPrefix 1 s'
      else if (c0 =? ch "i") || (c0 =? ch "I") then infinityPrefix 0 s
      else if (c0 =? ch "n") || (c0 =? ch "N") then
        if commonPrefixLenIgnoreCase s (bytes "nan") =? 3 then Some 3 else None
      else None
  end.

Record scan : Type := mkScan {
  mantissa : Z;      (* every digit read, leading zeros apart *)
  nd : Z;            (* how many *)
  dp : Z;            (* position of the point *)
  sawdot : bool;
  sawdigits : bool;
  underscores : bool
}.

(** The mantissa loop of [readFloat]; returns the unread [s[i:]]. *)
Fixpoint readMantissa (base : Z) (s : list Z) (st : scan) : scan * list Z :=
  match s with
  | [] => (st, [])
  | c :: s' =>
      if c =? ch "_" then
        readMantissa base s'
          (mkScan (mantissa st) (nd st) (dp st) (sawdot st) (sawdigits st) true)
      else if c =? ch "." then
        if sawdot st then (st, s)
        else readMantissa base s'
               (mkScan (mantissa st) (nd st) (nd st) true (sawdigits st) (underscores st))
      else if isDigit c then
        if (c =? ch "0") && (nd st =? 0) then
          readMantissa base s'
            (mkScan (mantissa st) (nd st) (dp st - 1) (sawdot st) true (underscores st))
        else
          readMantissa base s'
            (mkScan (mantissa st * base + (c - ch "0")) (nd st + 1) (dp st)
                    (sawdot st) true (underscores st))
      else if (base =? 16) && between (ch "a") (lower c) (ch "f") then
        readMantissa base s'
          (mkScan (mantissa st * 16 + (lower c - ch "a" + 10)) (nd st + 1) (dp st)
                  (sawdot st) true (underscores st))
      else (st, s)
  end.

(** The exponent's digit loop: [e] saturates once it reaches 10000. *)
Fixpoint readExponent (s : list Z) (e : Z) (underscores : bool) : Z * bool * list Z :=
  match s with
  | [] => (e, underscores, [])
  | c :: s' =>
      if c =? ch "_" then readExponent s' e true
      else if isDigit c then
        readExponent s' (if e <? 10000 then e * 10 + (c - ch "0") else e) underscores
      else (e, underscores, s)
  end.

(** The test for a hexadecimal mantissa, [i+2 < len(s) && s[i] == '0'
    && lower(s[i+1]) == 'x'], and the bytes after the prefix. *)
Definition hexPrefix (s : list Z) : bool * list Z :=
  match s with
  | c :: x :: (_ :: _) as r =>
      if (c =? ch "0") && (lower x =? ch "x") then (true, r) else (false, s)
  | _ => (false, s)
  end.

(** [readFloat]: [None] is [ok = false]; otherwise whether the
    literal is hexadecimal, its mantissa, its exponent (of 2 when
    hexadecimal, of 10 otherwise) and the unread [s[i:]]. *)
Definition readFloat (s : list Z) : option (bool * Z * Z * list Z) :=
  match s with
  | [] => None
  | c0 :: s' =>
      let s1 := if (c0 =? ch "+") || (c0 =? ch "-") then s' else s in
      let '(hex, s2) := hexPrefix s1 in
      let base := if hex then 16 else 10 in
      let expChar := if hex then ch "p" else ch "e" in
      let '(st, s3) := readMantissa base s2 (mkScan 0 0 0 false false false) in
      if negb (sawdigits st) then None
      else
        let dp := if sawdot st then dp st else nd st in
        let '(dp, ndigits) := if hex then (dp * 4, nd st * 4) else (dp, nd st) in
        let finish (dp : Z) (underscores : bool) (rest : list Z) :=
          let read := take (length s - length rest)%nat s in
          if underscores && negb (underscoreOK read) then None
          else Some (hex, mantissa st, dp - ndigits, rest) in
        match s3 with
        | c :: s4 =>
            if lower c =? expChar then
              match s4 with
              | [] => None
              | c' :: s5 =>
                  let '(esign, s6) :=
                    if c' =? ch "+" then (1, s5)
                    else if c' =? ch "-" then (-1, s5)
                    else (1, s4) in
                  match s6 with
                  | [] => None
                  | c'' :: _ =>
                      if negb (isDigit c'') then None
                      else
                        let '(e, underscores, rest) :=
                          readExponent s6 0 (underscores st) in
                        finish (dp + e * esign) underscores rest
                  end
              end
            else if hex then None
            else finish dp (underscores st) s3
        | [] => if hex then None else finish dp (underscores st) s3
        end
  end.

(** Half a unit in the last place beyond the largest finite value:
    a literal at or above it rounds to infinity. *)
Definition overflowThreshold (bitSize : Z) : Z :=
  if bitSize =? 32 then 2 ^ 128 - 2 ^ 103 else 2 ^ 1024 - 2 ^ 970.

(** Whether [mantissa * radix ^ exp] rounds to infinity. *)
Definition overflows (bitSize mantissa radix exp : Z) : bool :=
  if mantissa =? 0 then false
  else if 0 <=? exp then overflowThreshold bitSize <=? mantissa * radix ^ exp
  else overflowThreshold bitSize * radix ^ (- exp) <=? mantissa.

(** [ParseFloat(s, bitSize)]: the error ([None] is [nil]).  Any
    [bitSize] other than 32 means [float64]. *)
Definition ParseFloat (s : string) (bitSize : Z) : option NumError :=
  let b := bytes s in
  match special b with
  | Some n => if n =? Z.of_nat (length b) then None else Some ErrSyntax
  | None =>
      match readFloat b with
      | None => Some ErrSyntax
      | Some (hex, mantissa, exp, rest) =>
          match rest with
          | _ :: _ => Some ErrSyntax
          | [] =>
              if overflows bitSize mantissa (if hex then 2 else 10) exp
              then Some ErrRange
              else None
          end
      end
  end.

End strconv.

(** ** [os.Open] and [encoding/csv], as far as [Import] calls them

    The CSV lexer is an external collaborator: a file is given by what
    the lexer yields from its bytes, record after record, the end of
    the list being [io.EOF].  The reader's own bookkeeping, the
    [FieldsPerRecord] check of [csv.Reader.readRecord], is modelled. *)
Module csv.

(** Why the lexer rejects a record. *)
Inductive LexError : Type :=
| ErrQuote          (* extraneous or missing quote in a quoted field *)
| ErrBareQuote      (* bare quote in a non-quoted field *)
| ErrRead (msg : string).  (* the underlying reader failed *)

Inductive lexeme : Type :=
| Fields (record : list string)
| Malformed (cause : LexError).

Definition File : Type := list lexeme.

(** The [err] result of [Read], when not [nil]. *)
Inductive error : Type :=
| EOF
| ParseError (cause : LexError)
| ErrFieldCount.

Record Reader : Type := mkReader {
  FieldsPerRecord : Z;
  input : File
}.

(** [csv.NewReader] leaves [FieldsPerRecord] at zero: the first
    record fixes the number of fields of all later ones. *)
Definition NewReader (f : File) : Reader := mkReader 0 f.

(** [err == nil]. *)
Definition isNil (err : option error) : bool :=
  match err with
  | None => true
  | Some _ => false
  end.

(** One lexed record through the check at the end of [readRecord]:
    the record, the error, the new [FieldsPerRecord]. *)
Definition readRecord (fieldsPerRecord : Z) (x : lexeme)
  : list string * option error * Z :=
  let '(dst, err) :=
    match x with
    | Fields record => (record, None)
    | Malformed cause => ([], Some (ParseError cause))
    end in
  if fieldsPerRecord >? 0 then
    if negb (Z.of_nat (length dst) =? fieldsPerRecord) && isNil err
    then (dst, Some ErrFieldCount, fieldsPerRecord)
    else (dst, err, fieldsPerRecord)
  else if fieldsPerRecord =? 0 then (dst, err, Z.of_nat (length dst))
  else (dst, err, fieldsPerRecord).

Definition Read (r : Reader) : list string * option error * Reader :=
  match input r with
  | [] => ([], Some EOF, r)
  | x :: rest =>
      let '(record, err, n) := readRecord (FieldsPerRecord r) x in
      (record, err, mkReader n rest)
  end.

End csv.

Module os.

(** The cause inside the [*os.PathError] of a failed [Open]. *)
Inductive PathError : Type :=
| ErrNotExist
| ErrPermission
| ErrOther (msg : string).

(** What [os.Open] finds at each path. *)
Definition FileSystem : Type := string -> csv.File + PathError.

End os.

(** ** Package [cache] *)

Inductive FieldType : Type :=
| FieldTypeUnknown
| FieldTypeString
| FieldTypeInteger
| FieldTypeFloat.

#[export] Instance FieldType_eq_dec : EqDecision FieldType.
Proof. solve_decision. Defined.

Definition fieldTypeString (t : FieldType) : string :=
  match t with
  | FieldTypeString => "FIELD_TYPE_STRING"
  | FieldTypeInteger => "FIELD_TYPE_INTEGER"
  | FieldTypeFloat => "FIELD_TYPE_FLOAT"
  | FieldTypeUnknown => "FIELD_TYPE_UNKNOWN"
  end.

Record DataSetCache : Type := mkDataSetCache {
  FieldNames : list string;
  FieldTypes : list FieldType;
  FieldData : list (list string)
}.

(** [New]: the capacity hint of [make] is not observable. *)
Definition New : DataSetCache := mkDataSetCache [] [] [].

(** The errors [Import] builds with [fmt.Errorf]; each but the second
    wraps its cause, and each names the resource. *)
Inductive error : Type :=
| CouldNotOpen (URI : string) (cause : os.PathError)
| UnexpectedEOFInHeader (URI : string)
| CouldNotParse (URI : string) (cause : csv.error).

Definition errorURI (e : error) : string :=
  match e with
  | CouldNotOpen URI _ | UnexpectedEOFInHeader URI | CouldNotParse URI _ => URI
  end.

(** How a call of [Import] ends: it returns [err] (with [None] for
    [nil]) and leaves the cache [c], or an index expression panics. *)
Inductive result : Type :=
| Returns (err : option error) (c : DataSetCache)
| Panics.

Definition inferProbableTypeFromString (s : string) : FieldType :=
  match strconv.ParseInt s 10 64 with
  | (_, Some _) =>
      match strconv.ParseFloat s 10 with
      | Some _ => FieldTypeString
      | None => FieldTypeFloat
      end
  | (_, None) => FieldTypeInteger
  end.

(** [for fieldIndex := range c.FieldNames { c.FieldTypes[fieldIndex] =
    FieldTypeInteger }] over the zeroed slice [make] returns. *)
Definition seedFieldTypes (names : list string) : list FieldType :=
  fold_left (fun types fieldIndex => <[fieldIndex := FieldTypeInteger]> types)
            (seq 0 (length names))
            (replicate (length names) FieldTypeUnknown).

(** [for column, stringValue := range record { ... }]: the field types
    and [fieldData] after the remaining cells, [None] when
    [c.FieldTypes[column]] is out of range. *)
Fixpoint rangeRecord (column : nat) (record : list string)
    (types : list FieldType) (fieldData : list string)
  : option (list FieldType * list string) :=
  match record with
  | [] => Some (types, fieldData)
  | stringValue :: record' =>
      match types !! column with
      | None => None
      | Some t =>
          let types :=
            match t with
            | FieldTypeUnknown =>
                <[column := inferProbableTypeFromString stringValue]> types
            | FieldTypeString => types
            | FieldTypeInteger =>
                <[column := inferProbableTypeFromString stringValue]> types
            | FieldTypeFloat =>
                if decide (inferProbableTypeFromString stringValue = FieldTypeString)
                then <[column := FieldTypeString]> types
                else types
            end in
          rangeRecord (S column) record' types (<[column := stringValue]> fieldData)
      end
  end.

(** The body of the row loop once [Read] has returned a record. *)
Definition appendRecord (c : DataSetCache) (record : list string) : option DataSetCache :=
  match rangeRecord 0 record (FieldTypes c) (replicate (length record) EmptyString) with
  | None => None
  | Some (types, fieldData) =>
      Some (mkDataSetCache (FieldNames c) types (FieldData c ++ [fieldData]))
  end.

(** The row loop [for { record, err = csvReader.Read() ... }], by
    recursion on what the reader has left to read. *)
Fixpoint importRows (URI : string) (fieldsPerRecord : Z) (input : csv.File)
    (c : DataSetCache) : result :=
  match input with
  | [] => Returns None c
  | x :: input' =>
      let '(record, err, fieldsPerRecord') := csv.readRecord fieldsPerRecord x in
      match err with
      | Some e => Returns (Some (CouldNotParse URI e)) c
      | None =>
          match appendRecord c record with
          | None => Panics
          | Some c' => importRows URI fieldsPerRecord' input' c'
          end
      end
  end.

(** [func (c *DataSetCache) Import(URI string) error].  The log lines
    are observational and left out. *)
Definition Import (c : DataSetCache) (fs : os.FileSystem) (URI : string) : result :=
  match fs URI with
  | inr err => Returns (Some (CouldNotOpen URI err)) c
  | inl file =>
      let '(record, err, csvReader) := csv.Read (csv.NewReader file) in
      match err with
      | Some csv.EOF => Returns (Some (UnexpectedEOFInHeader URI)) c
      | Some e => Returns (Some (CouldNotParse URI e)) c
      | None =>
          let c := mkDataSetCache record (FieldTypes c) (FieldData c) in
          let c := mkDataSetCache (FieldNames c) (seedFieldTypes (FieldNames c)) (FieldData c) in
          importRows URI (csv.FieldsPerRecord csvReader) (csv.input csvReader) c
      end
  end.

(** ** The vocabulary of the properties *)

(** The strictness order Integer < Float < String; Unknown, the zero
    value that [Import] overwrites before it reads a row, lies below. *)
Definition strictness (t : FieldType) : nat :=
  match t with
  | FieldTypeUnknown => 0
  | FieldTypeInteger => 1
  | FieldTypeFloat => 2
  | FieldTypeString => 3
  end.

Definition widens (a b : FieldType) : Prop := (strictness a <= strictness b)%nat.

(** The wider of two types. *)
Definition join (a b : FieldType) : FieldType :=
  if decide (strictness a <= strictness b)%nat then b else a.

(** The cells of one column, top to bottom. *)
Definition columnCells (column : nat) (rows : list (list string)) : list string :=
  omap (fun row : list string => row !! column) rows.

(** [t] is the most specific of Integer, Float and String that every
    cell's probe fits in. *)
Definition mostSpecific (t : FieldType) (cells : list string) : Prop :=
  t <> FieldTypeUnknown /\
  Forall (fun v => widens (inferProbableTypeFromString v) t) cells /\
  forall t', t' <> FieldTypeUnknown ->
    Forall (fun v => widens (inferProbableTypeFromString v) t') cells ->
    widens t t'.

(** The field types after a run of rows, each joined in cell by cell. *)
Definition widenTypes (types : list FieldType) (rows : list (list string))
  : list FieldType :=
  fold_left (fun ts row => zip_with join ts (inferProbableTypeFromString <$> row))
            rows types.

(** The cache after the row loop has appended [rows]. *)
Definition extend (c : DataSetCache) (rows : list (list string)) : DataSetCache :=
  mkDataSetCache (FieldNames c) (widenTypes (FieldTypes c) rows) (FieldData c ++ rows).

(** The number that decimal digits spell, read after [n]. *)
Definition accumulate (ds : list Z) (n : Z) : Z :=
  fold_left (fun n c => n * 10 + (c - ch "0")) ds n.

Definition digitsValue (ds : list Z) : Z := accumulate ds 0.

Definition allDigits (ds : list Z) : bool := forallb strconv.isDigit ds.

(** A base-10 integer literal is an optional sign and one or more
    decimal digits; [intLiteral] is its value, of any size. *)
Definition intLiteral (s : string) : option Z :=
  match bytes s with
  | [] => None
  | c0 :: s' =>
      let '(neg, ds) :=
        if c0 =? ch "+" then (false, s')
        else if c0 =? ch "-" then (true, s')
        else (false, c0 :: s') in
      match ds with
      | [] => None
      | _ :: _ =>
          if allDigits ds
          then Some (if neg then - digitsValue ds else digitsValue ds)
          else None
      end
  end.

(** The signed 64-bit range. *)
Definition minInt64 : Z := - 2 ^ 63.
Definition maxInt64 : Z := 2 ^ 63 - 1.

(** The largest finite [float64]. *)
Definition maxFloat64 : Z := 2 ^ 1024 - 2 ^ 971.

(** The bytes a string that parses as a number is made of: decimal
    digits, letters (hexadecimal digits, the markers of the radix and
    of the exponent, "inf", "infinity" and "nan"), signs, the point and
    the underscore. *)
Definition numericByte (c : Z) : bool :=
  strconv.isDigit c
  || strconv.between (ch "a") (strconv.lower c) (ch "z")
  || (c =? ch "+") || (c =? ch "-") || (c =? ch ".") || (c =? ch "_").

(** ** Example resources

    The sources of the concrete scenarios: a header and two rows whose
    columns are an integer, a float that becomes an integer, and text;
    one text cell; a header alone; two good rows and then a record with
    an unbalanced quote; a file with no record at all; and no file. *)
Definition salesHeader : list string := ["id"; "price"; "name"]%string.
Definition salesRows : list (list string) :=
  [["1"; "9.99"; "apple"]; ["2"; "10"; "banana"]]%string.
Definition goodRows : list (list string) := [["1"; "x"]; ["2.5"; "y"]]%string.

Definition exampleFS : os.FileSystem := fun URI =>
  if String.eqb URI "sales.csv" then
    inl (csv.Fields salesHeader :: map csv.Fields salesRows)
  else if String.eqb URI "abc.csv" then
    inl [csv.Fields ["a"%string]; csv.Fields ["abc"%string]]
  else if String.eqb URI "header.csv" then
    inl [csv.Fields ["a"%string]]
  else if String.eqb URI "malformed.csv" then
    inl (csv.Fields ["a"; "b"]%string :: map csv.Fields goodRows
           ++ [csv.Malformed csv.ErrQuote; csv.Fields ["3"; "z"]%string])
  else if String.eqb URI "empty.csv" then inl []
  else inr os.ErrNotExist.

(** ** The log and [main]

    [Import] writes to the standard logger.  The log is the list of the
    messages, one for each call of the logger, in order, without the
    time stamp the logger puts before each and the newline it puts
    after. *)

(** [%v] of the [int] that [len] returns: its decimal digits. *)
Definition formatInt (n : nat) : string := NilEmpty.string_of_uint (Nat.to_uint n).

(** [fmt.Sprintln] puts a space between its operands. *)
Definition Sprintln (operands : list string) : string := String.concat " " operands.

(** [for i, v := range c.FieldNames { log.Printf("   %v: %v", v,
    fieldTypeString(c.FieldTypes[i])) }] from index [i] on: the
    messages, and [false] when [c.FieldTypes[i]] is out of range and
    panics. *)
Fixpoint logFields (i : nat) (names : list string) (types : list FieldType)
  : list string * bool :=
  match names with
  | [] => ([], true)
  | v :: names' =>
      match types !! i with
      | None => ([], false)
      | Some t =>
          let '(messages, ok) := logFields (S i) names' types in
          (String.append "   "
             (String.append v (String.append ": " (fieldTypeString t))) :: messages, ok)
      end
  end.

(** The message of one field, ["   %v: %v"] of its name and tag. *)
Definition fieldMessage (name : string) (t : FieldType) : string :=
  String.append "   " (String.append name (String.append ": " (fieldTypeString t))).

(** [Import] with what it logs: the message at its start, and, once
    the row loop has ended by [io.EOF], the row count and the line of
    each field. *)
Definition ImportLogged (c : DataSetCache) (fs : os.FileSystem) (URI : string)
  : result * list string :=
  let log := [Sprintln ["importing"%string; URI]] in
  match fs URI with
  | inr err => (Returns (Some (CouldNotOpen URI err)) c, log)
  | inl file =>
      let '(record, err, csvReader) := csv.Read (csv.NewReader file) in
      match err with
      | Some csv.EOF => (Returns (Some (UnexpectedEOFInHeader URI)) c, log)
      | Some e => (Returns (Some (CouldNotParse URI e)) c, log)
      | None =>
          let c := mkDataSetCache record (FieldTypes c) (FieldData c) in
          let c := mkDataSetCache (FieldNames c) (seedFieldTypes (FieldNames c)) (FieldData c) in
          match importRows URI (csv.FieldsPerRecord csvReader) (csv.input csvReader) c with
          | Returns None c =>
              let log :=
                log ++ [String.append "finished processing CSV, "
                          (String.append (formatInt (length (FieldData c)))
                                         " rows processed")] in
              let log := log ++ [Sprintln ["fields: "%string]] in
              let '(messages, ok) := logFields 0 (FieldNames c) (FieldTypes c) in
              (if ok then Returns None c else Panics, log ++ messages)
          | r => (r, log)
          end
      end
  end.

(** [main] of [cmd/flatland]: it drops the error [Import] returns.
    [true] when [main] returns, [false] when it panics; and the log. *)
Definition main (fs : os.FileSystem) : bool * list string :=
  let objectCache := New in
  match ImportLogged objectCache fs "data/5m_sales_records.csv" with
  | (Returns _ _, log) => (true, log)
  | (Panics, log) => (false, log)
  end.

(** Case analysis on the integer comparisons of the goal. *)
Ltac Zcompare :=
  repeat match goal with
    | |- context [?a <=? ?b] => destruct (Z.leb_spec a b)
    | |- context [?a <? ?b] => destruct (Z.ltb_spec a b)
    | |- context [?a >=? ?b] => destruct (Z.geb_spec a b)
    | |- context [?a >? ?b] => destruct (Z.gtb_spec a b)
    | |- context [?a =? ?b] => destruct (Z.eqb_spec a b)
    end.

(** ** The strictness order *)

Lemma infer_cases (s : string) :
  inferProbableTypeFromString s = FieldTypeInteger \/
  inferProbableTypeFromString s = FieldTypeFloat \/
  inferProbableTypeFromString s = FieldTypeString.
Proof.
  unfold inferProbableTypeFromString.
  destruct (strconv.ParseInt s 10 64) as [v [e|]]; auto.
  destruct (strconv.ParseFloat s 10); auto.
Qed.

Lemma infer_not_unknown (s : string) :
  inferProbableTypeFromString s <> FieldTypeUnknown.
Proof. destruct (infer_cases s) as [H|[H|H]]; rewrite H; discriminate. Qed.

Lemma widens_refl t : widens t t.
Proof. unfold widens; lia. Qed.

Lemma widens_trans a b c : widens a b -> widens b c -> widens a c.
Proof. unfold widens; lia. Qed.

Lemma widens_join_l a b : widens a (join a b).
Proof. unfold widens, join; case_decide; lia. Qed.

Lemma widens_join_r a b : widens b (join a b).
Proof. unfold widens, join; case_decide; lia. Qed.

Lemma join_least a b t : widens a t -> widens b t -> widens (join a b) t.
Proof. unfold join; case_decide; auto. Qed.

Lemma strictness_inj a b : strictness a = strictness b -> a = b.
Proof. destruct a, b; simpl; congruence. Qed.

Lemma join_String_l b : join FieldTypeString b = FieldTypeString.
Proof. destruct b; reflexivity. Qed.

Lemma join_not_unknown a b : a <> FieldTypeUnknown -> join a b <> FieldTypeUnknown.
Proof.
  intros Ha; unfold join; case_decide as Hle; [intros -> | exact Ha].
  destruct a; simpl in Hle; [congruence | lia ..].
Qed.

(** What the [switch] of the row loop stores for one cell is the join
    of the field's type and the cell's probe. *)
Lemma switch_is_join (t : FieldType) (stringValue : string) (column : nat)
    (types : list FieldType) :
  types !! column = Some t ->
  match t with
  | FieldTypeUnknown => <[column := inferProbableTypeFromString stringValue]> types
  | FieldTypeString => types
  | FieldTypeInteger => <[column := inferProbableTypeFromString stringValue]> types
  | FieldTypeFloat =>
      if decide (inferProbableTypeFromString stringValue = FieldTypeString)
      then <[column := FieldTypeString]> types
      else types
  end = <[column := join t (inferProbableTypeFromString stringValue)]> types.
Proof.
  intros Hl.
  destruct (infer_cases stringValue) as [H|[H|H]]; rewrite H;
    destruct t; simpl; try reflexivity;
    try (symmetry; apply list_insert_id; exact Hl);
    case_decide; try discriminate; try reflexivity;
    symmetry; apply list_insert_id; exact Hl.
Qed.

(** ** The row loop *)

Local Open Scope nat_scope.

(** [make] and the seeding loop leave every field at Integer. *)
Lemma seedFieldTypes_Integer (names : list string) :
  seedFieldTypes names = replicate (length names) FieldTypeInteger.
Proof.
  unfold seedFieldTypes.
  generalize (length names) as n; intros n.
  assert (G : forall k (l : list FieldType), length l = k + n ->
            fold_left (fun types i => <[i := FieldTypeInteger]> types) (seq k n) l
            = take k l ++ replicate n FieldTypeInteger).
  { induction n as [|n IH]; intros k l Hl; simpl.
    - rewrite take_ge by lia. now rewrite app_nil_r.
    - rewrite IH by (rewrite length_insert; lia).
      rewrite (take_S_r _ k FieldTypeInteger)
        by (apply list_lookup_insert_eq; lia).
      rewrite take_insert_ge by lia.
      now rewrite <- app_assoc. }
  rewrite (G 0) by (rewrite length_replicate; lia).
  reflexivity.
Qed.

(** The inner loop from column [length pre] on: it panics exactly when
    the record has more cells than there are field types left, and
    otherwise joins each cell's probe into its field and copies the
    cells into [fieldData]. *)
Lemma rangeRecord_app (record : list string) :
  forall (pre post : list FieldType) (fpre fpost : list string),
    length fpre = length pre ->
    length fpost = length record ->
    rangeRecord (length pre) record (pre ++ post) (fpre ++ fpost) =
      if decide (length record <= length post)
      then Some (pre ++ zip_with join post (inferProbableTypeFromString <$> record)
                     ++ drop (length record) post,
                 fpre ++ record)
      else None.
Proof.
  induction record as [|s record IH]; intros pre post fpre fpost Hpre Hpost.
  - destruct fpost; [|discriminate].
    simpl. rewrite zip_with_nil_r. reflexivity.
  - destruct fpost as [|f fpost]; [discriminate|].
    destruct post as [|t post]; cbn [rangeRecord].
    + rewrite app_nil_r, lookup_ge_None_2 by lia.
      case_decide as Hd; [simpl in Hd; lia|reflexivity].
    + rewrite list_lookup_middle by reflexivity.
      rewrite (switch_is_join t s) by (apply list_lookup_middle; reflexivity).
      replace (<[length pre:=join t (inferProbableTypeFromString s)]> (pre ++ t :: post))
        with ((pre ++ [join t (inferProbableTypeFromString s)]) ++ post).
      2:{ replace (length pre) with (length pre + 0) at 1 by lia.
          rewrite insert_app_r. simpl. now rewrite <- app_assoc. }
      replace (<[length pre:=s]> (fpre ++ f :: fpost)) with ((fpre ++ [s]) ++ fpost).
      2:{ rewrite <- Hpre. replace (length fpre) with (length fpre + 0) at 1 by lia.
          rewrite insert_app_r. simpl. now rewrite <- app_assoc. }
      replace (S (length pre)) with (length (pre ++ [join t (inferProbableTypeFromString s)]))
        by (rewrite length_app; simpl; lia).
      rewrite IH; [|rewrite !length_app; simpl; lia|simpl in Hpost; lia].
      simpl length.
      case_decide; case_decide; try lia; [|reflexivity].
      rewrite <- !app_assoc. reflexivity.
Qed.

(** One record through the body of the row loop. *)
Lemma appendRecord_spec (c : DataSetCache) (record : list string) :
  appendRecord c record =
    if decide (length record <= length (FieldTypes c))
    then Some (mkDataSetCache (FieldNames c)
                 (zip_with join (FieldTypes c) (inferProbableTypeFromString <$> record)
                    ++ drop (length record) (FieldTypes c))
                 (FieldData c ++ [record]))
    else None.
Proof.
  unfold appendRecord.
  pose proof (rangeRecord_app record [] (FieldTypes c) []
                (replicate (length record) EmptyString) eq_refl) as H.
  simpl in H. rewrite H by apply length_replicate.
  case_decide; reflexivity.
Qed.

Lemma appendRecord_full (c : DataSetCache) (record : list string) :
  length record = length (FieldTypes c) ->
  appendRecord c record = Some (extend c [record]).
Proof.
  intros Hlen. rewrite appendRecord_spec.
  case_decide; [|lia].
  rewrite Hlen, drop_all, app_nil_r. reflexivity.
Qed.

(** [importRows] is the loop around [csvReader.Read]: one call of
    [Read], the test for [io.EOF], the test for another error, the body,
    and the loop again on the reader as [Read] left it. *)
Lemma importRows_Read (URI : string) (r : csv.Reader) (c : DataSetCache) :
  importRows URI (csv.FieldsPerRecord r) (csv.input r) c =
    let '(record, err, r') := csv.Read r in
    match err with
    | Some csv.EOF => Returns None c
    | Some e => Returns (Some (CouldNotParse URI e)) c
    | None =>
        match appendRecord c record with
        | None => Panics
        | Some c' => importRows URI (csv.FieldsPerRecord r') (csv.input r') c'
        end
    end.
Proof.
  destruct r as [n [|x input]]; [reflexivity|].
  unfold csv.Read; cbn [csv.input csv.FieldsPerRecord importRows].
  unfold csv.readRecord.
  destruct x as [record|cause]; destruct (n >? 0)%Z; try destruct (n =? 0)%Z;
    cbn [csv.isNil]; rewrite ?andb_false_r, ?andb_true_r;
    try destruct (negb (Z.of_nat (length record) =? n)%Z); reflexivity.
Qed.

Lemma extend_nil (c : DataSetCache) : extend c [] = c.
Proof. destruct c; unfold extend; simpl. now rewrite app_nil_r. Qed.

Lemma extend_cons (c : DataSetCache) (row : list string) (rows : list (list string)) :
  extend (extend c [row]) rows = extend c (row :: rows).
Proof. unfold extend; simpl. now rewrite <- app_assoc. Qed.

Lemma length_widenTypes (rows : list (list string)) :
  forall types : list FieldType,
    Forall (fun row => length row = length types) rows ->
    length (widenTypes types rows) = length types.
Proof.
  induction rows as [|row rows IH]; intros types Hrows; [reflexivity|].
  apply Forall_cons in Hrows as [Hrow Hrows].
  assert (Hz : length (zip_with join types (inferProbableTypeFromString <$> row))
               = length types)
    by (rewrite length_zip_with, length_fmap; lia).
  unfold widenTypes; simpl. fold (widenTypes (zip_with join types
    (inferProbableTypeFromString <$> row)) rows).
  rewrite IH; [exact Hz|].
  eapply Forall_impl; [exact Hrows|]. simpl; intros; lia.
Qed.

(** The reader hands a malformed record over as a parse error, which
    ends the loop and leaves the cache as it is. *)
Lemma importRows_Malformed (URI : string) (n : Z) (cause : csv.LexError)
    (input : csv.File) (c : DataSetCache) :
  importRows URI n (csv.Malformed cause :: input) c =
    Returns (Some (CouldNotParse URI (csv.ParseError cause))) c.
Proof.
  simpl. unfold csv.readRecord.
  destruct (n >? 0)%Z; [|destruct (n =? 0)%Z]; simpl;
    try rewrite andb_false_r; reflexivity.
Qed.

(** A lexed record, when the reader expects as many fields as there are
    field types: a record of that length is appended; another length is
    a field-count error, but for an empty header, where the reader has
    nothing to check against and the index panics. *)
Lemma importRows_Fields (URI : string) (record : list string)
    (input : csv.File) (c : DataSetCache) :
  importRows URI (Z.of_nat (length (FieldTypes c))) (csv.Fields record :: input) c =
    if decide (length record = length (FieldTypes c))
    then importRows URI (Z.of_nat (length (FieldTypes c))) input (extend c [record])
    else if decide (length (FieldTypes c) = 0) then Panics
    else Returns (Some (CouldNotParse URI csv.ErrFieldCount)) c.
Proof.
  cbn [importRows]. unfold csv.readRecord.
  destruct (Z.gtb_spec (Z.of_nat (length (FieldTypes c))) 0) as [Hpos|Hzero].
  - destruct (Z.eqb_spec (Z.of_nat (length record)) (Z.of_nat (length (FieldTypes c))))
      as [Heq|Hne]; simpl.
    + apply Nat2Z.inj in Heq.
      rewrite appendRecord_full by exact Heq.
      case_decide; [|lia].
      replace (length (FieldTypes (extend c [record]))) with (length (FieldTypes c));
        [reflexivity|].
      unfold extend; simpl. rewrite length_zip_with, length_fmap. lia.
    + case_decide; [lia|]. case_decide; [lia|reflexivity].
  - assert (Hlen : length (FieldTypes c) = 0) by lia.
    destruct c as [names [|t types] data]; [|discriminate]. simpl.
    rewrite appendRecord_spec. simpl.
    destruct record as [|s record]; simpl; reflexivity.
Qed.

Lemma length_types_extend (c : DataSetCache) (rows : list (list string)) :
  Forall (fun row => length row = length (FieldTypes c)) rows ->
  length (FieldTypes (extend c rows)) = length (FieldTypes c).
Proof. intros H. unfold extend; simpl. now apply length_widenTypes. Qed.

(** The loop runs through records of the expected length and appends
    them in order. *)
Lemma importRows_app (URI : string) (good : list (list string)) :
  forall (tail : csv.File) (c : DataSetCache),
    Forall (fun row => length row = length (FieldTypes c)) good ->
    importRows URI (Z.of_nat (length (FieldTypes c))) ((csv.Fields <$> good) ++ tail) c =
    importRows URI (Z.of_nat (length (FieldTypes c))) tail (extend c good).
Proof.
  induction good as [|row good IH]; intros tail c Hgood.
  - now rewrite extend_nil.
  - apply Forall_cons in Hgood as [Hrow Hgood].
    assert (Hlen : length (FieldTypes (extend c [row])) = length (FieldTypes c))
      by (apply length_types_extend; constructor; [exact Hrow|constructor]).
    rewrite fmap_cons, <- app_comm_cons, importRows_Fields.
    case_decide; [|contradiction].
    rewrite <- Hlen, IH, extend_cons; [reflexivity|].
    now rewrite Hlen.
Qed.

(** Whenever the loop returns, the cache has grown by the records read
    before the loop ended, each as long as the header; a [nil] error
    means the whole input was such records. *)
Lemma importRows_inv (URI : string) (input : csv.File) :
  forall (c : DataSetCache) (e : option error) (c' : DataSetCache),
    importRows URI (Z.of_nat (length (FieldTypes c))) input c = Returns e c' ->
    exists (good : list (list string)) (tail : csv.File),
      input = (csv.Fields <$> good) ++ tail /\
      Forall (fun row => length row = length (FieldTypes c)) good /\
      c' = extend c good /\
      match e with
      | None => tail = []
      | Some err => tail <> [] /\ exists cause, err = CouldNotParse URI cause
      end.
Proof.
  induction input as [|x input IH]; intros c e c' H.
  - simpl in H. injection H as <- <-.
    exists [], []. now rewrite extend_nil.
  - destruct x as [record|cause].
    + rewrite importRows_Fields in H.
      case_decide as Hrow.
      * assert (Hlen : length (FieldTypes (extend c [record])) = length (FieldTypes c))
          by (apply length_types_extend; constructor; [exact Hrow|constructor]).
        rewrite <- Hlen in H.
        apply IH in H as (good & tail & -> & Hgood & -> & He).
        exists (record :: good), tail.
        rewrite extend_cons. repeat split; try assumption; try reflexivity.
        constructor; [exact Hrow|]. now rewrite <- Hlen.
      * case_decide; [discriminate|]. injection H as <- <-.
        exists [], (csv.Fields record :: input).
        rewrite extend_nil. repeat split; eauto; discriminate.
    + rewrite importRows_Malformed in H. injection H as <- <-.
      exists [], (csv.Malformed cause :: input).
      rewrite extend_nil. repeat split; eauto; discriminate.
Qed.

(** ** [Import] *)

(** Once the header is read, [Import] is the row loop on the seeded
    cache. *)
Lemma Import_header (c : DataSetCache) (fs : os.FileSystem) (URI : string)
    (header : list string) (input : csv.File) :
  fs URI = inl (csv.Fields header :: input) ->
  Import c fs URI =
    importRows URI (Z.of_nat (length header)) input
      (mkDataSetCache header (replicate (length header) FieldTypeInteger) (FieldData c)).
Proof.
  intros Hfs. unfold Import. rewrite Hfs. simpl.
  now rewrite seedFieldTypes_Integer.
Qed.

(** The three ways [Import] returns before it touches the cache. *)
Lemma Import_early (c : DataSetCache) (fs : os.FileSystem) (URI : string) :
  (forall cause, fs URI = inr cause ->
     Import c fs URI = Returns (Some (CouldNotOpen URI cause)) c) /\
  (fs URI = inl [] ->
     Import c fs URI = Returns (Some (UnexpectedEOFInHeader URI)) c) /\
  (forall cause input, fs URI = inl (csv.Malformed cause :: input) ->
     Import c fs URI = Returns (Some (CouldNotParse URI (csv.ParseError cause))) c).
Proof.
  unfold Import. repeat split; intros; rewrite H; reflexivity.
Qed.

(** However [Import] returns, either it returned before the header was
    stored and the cache is untouched, or the header was read and the
    cache holds it, the seeded and widened types, and the records read
    before the loop ended. *)
Lemma Import_returns_inv (c : DataSetCache) (fs : os.FileSystem) (URI : string)
    (e : option error) (c' : DataSetCache) :
  Import c fs URI = Returns e c' ->
  (c' = c /\ is_Some e /\ forall header input, fs URI <> inl (csv.Fields header :: input)) \/
  (exists (header : list string) (good : list (list string)) (tail : csv.File),
      fs URI = inl (csv.Fields header :: (csv.Fields <$> good) ++ tail) /\
      Forall (fun row => length row = length header) good /\
      c' = extend (mkDataSetCache header (replicate (length header) FieldTypeInteger)
                     (FieldData c)) good /\
      match e with
      | None => tail = []
      | Some err => tail <> [] /\ exists cause, err = CouldNotParse URI cause
      end).
Proof.
  intros H.
  destruct (fs URI) as [[|[header|cause] input]|cause] eqn:Hfs.
  - rewrite (proj1 (proj2 (Import_early c fs URI)) Hfs) in H.
    injection H as <- <-. left. repeat split; eauto; discriminate.
  - right. rewrite (Import_header c fs URI header input Hfs) in H.
    set (c0 := mkDataSetCache header (replicate (length header) FieldTypeInteger)
                 (FieldData c)) in *.
    assert (Hlen : length (FieldTypes c0) = length header) by apply length_replicate.
    rewrite <- Hlen in H.
    apply importRows_inv in H as (good & tail & -> & Hgood & -> & He).
    exists header, good, tail. rewrite Hlen in Hgood. auto.
  - rewrite (proj2 (proj2 (Import_early c fs URI)) _ _ Hfs) in H.
    injection H as <- <-. left. repeat split; eauto; discriminate.
  - rewrite (proj1 (Import_early c fs URI) _ Hfs) in H.
    injection H as <- <-. left. repeat split; eauto; discriminate.
Qed.

(** On a header followed by records of the header's length, and then
    anything, [Import] is the row loop on that rest, the records
    appended. *)
Lemma Import_rows (c : DataSetCache) (fs : os.FileSystem) (URI : string)
    (header : list string) (good : list (list string)) (tail : csv.File) :
  fs URI = inl (csv.Fields header :: (csv.Fields <$> good) ++ tail) ->
  Forall (fun row => length row = length header) good ->
  Import c fs URI =
    importRows URI (Z.of_nat (length header)) tail
      (extend (mkDataSetCache header (replicate (length header) FieldTypeInteger)
                 (FieldData c)) good).
Proof.
  intros Hfs Hgood.
  rewrite (Import_header c fs URI header _ Hfs).
  set (c0 := mkDataSetCache header (replicate (length header) FieldTypeInteger)
               (FieldData c)).
  assert (Hlen : length (FieldTypes c0) = length header) by apply length_replicate.
  rewrite <- Hlen. apply importRows_app. now rewrite Hlen.
Qed.

(** ** Widening *)

Lemma zip_with_join_widens (types : list FieldType) :
  forall probes : list FieldType,
    Forall2 widens types (zip_with join types probes ++ drop (length probes) types).
Proof.
  induction types as [|t types IH]; intros [|p probes]; simpl.
  - constructor.
  - constructor.
  - constructor; [apply widens_refl|].
    apply Forall_Forall2_diag, Forall_forall. intros; apply widens_refl.
  - constructor; [apply widens_join_l|apply IH].
Qed.

Lemma appendRecord_widens (c c' : DataSetCache) (record : list string) :
  appendRecord c record = Some c' ->
  Forall2 widens (FieldTypes c) (FieldTypes c').
Proof.
  rewrite appendRecord_spec. case_decide; [|discriminate].
  intros [= <-]. simpl.
  rewrite <- (length_fmap inferProbableTypeFromString record).
  apply zip_with_join_widens.
Qed.

Lemma Forall2_widens_trans (l1 l2 l3 : list FieldType) :
  Forall2 widens l1 l2 -> Forall2 widens l2 l3 -> Forall2 widens l1 l3.
Proof.
  intros H12; revert l3.
  induction H12; intros l3 H23; inversion H23; subst; constructor;
    eauto using widens_trans.
Qed.

Lemma Forall2_widens_refl (l : list FieldType) : Forall2 widens l l.
Proof. induction l; constructor; auto using widens_refl. Qed.

(** From any point of the row loop to its end, whatever the reader
    expects and yields, every field type moves up the strictness order
    or stays. *)
Lemma importRows_widens (URI : string) (input : csv.File) :
  forall (n : Z) (c : DataSetCache) (e : option error) (c' : DataSetCache),
    importRows URI n input c = Returns e c' ->
    Forall2 widens (FieldTypes c) (FieldTypes c').
Proof.
  induction input as [|x input IH]; intros n c e c' H.
  - injection H as <- <-. apply Forall2_widens_refl.
  - cbn [importRows] in H.
    destruct (csv.readRecord n x) as [[record [err|]] n'].
    + injection H as <- <-. apply Forall2_widens_refl.
    + destruct (appendRecord c record) as [c1|] eqn:Hc1; [|discriminate].
      eapply Forall2_widens_trans; [eapply appendRecord_widens; eassumption|].
      eapply IH; eassumption.
Qed.

Lemma widens_String (t : FieldType) : widens FieldTypeString t -> t = FieldTypeString.
Proof. destruct t; unfold widens; simpl; intros; (reflexivity || lia). Qed.

Lemma Forall2_widens_String (l l' : list FieldType) (column : nat) :
  Forall2 widens l l' ->
  l !! column = Some FieldTypeString -> l' !! column = Some FieldTypeString.
Proof.
  intros H Hl.
  destruct (Forall2_lookup_l _ _ _ _ _ H Hl) as (t & Ht & Hw).
  now rewrite (widens_String t Hw) in Ht.
Qed.

(** ** The final type of a column *)

Lemma columnCells_cons (column : nat) (row : list string) (rows : list (list string))
    (v : string) :
  row !! column = Some v ->
  columnCells column (row :: rows) = v :: columnCells column rows.
Proof. intros H. unfold columnCells; simpl. now rewrite H. Qed.

(** Every row that has the column contributes one cell. *)
Lemma length_columnCells (column : nat) (rows : list (list string)) :
  Forall (fun row => column < length row) rows ->
  length (columnCells column rows) = length rows.
Proof.
  induction 1 as [|row rows Hrow _ IH]; [reflexivity|].
  destruct (lookup_lt_is_Some_2 row column Hrow) as [v Hv].
  rewrite (columnCells_cons _ _ _ v Hv). simpl. now rewrite IH.
Qed.

(** A field's type after a run of full-width rows is the fold of
    [join] over the probes of its column, from the type it had. *)
Lemma widenTypes_lookup (rows : list (list string)) :
  forall (types : list FieldType) (column : nat) (t : FieldType),
    Forall (fun row => length row = length types) rows ->
    types !! column = Some t ->
    widenTypes types rows !! column =
      Some (fold_left join (inferProbableTypeFromString <$> columnCells column rows) t).
Proof.
  induction rows as [|row rows IH]; intros types column t Hrows Ht; [exact Ht|].
  apply Forall_cons in Hrows as [Hrow Hrows].
  assert (Hcol : column < length row)
    by (rewrite Hrow; eapply lookup_lt_Some; exact Ht).
  destruct (lookup_lt_is_Some_2 row column Hcol) as [v Hv].
  rewrite (columnCells_cons _ _ _ v Hv).
  change (widenTypes types (row :: rows))
    with (widenTypes (zip_with join types (inferProbableTypeFromString <$> row)) rows).
  apply IH.
  - eapply Forall_impl; [exact Hrows|]. simpl. intros r Hr.
    rewrite length_zip_with, length_fmap. lia.
  - rewrite lookup_zip_with, Ht, list_lookup_fmap, Hv. reflexivity.
Qed.

(** The fold of [join] from [t0] is the least type above [t0] and
    above every probe. *)
Lemma fold_join_least (cells : list string) :
  forall t0 : FieldType,
    let t := fold_left join (inferProbableTypeFromString <$> cells) t0 in
    widens t0 t /\
    Forall (fun v => widens (inferProbableTypeFromString v) t) cells /\
    forall t', widens t0 t' ->
      Forall (fun v => widens (inferProbableTypeFromString v) t') cells ->
      widens t t'.
Proof.
  induction cells as [|v cells IH]; intros t0; simpl.
  - split; [apply widens_refl|]. split; [constructor|]. auto.
  - destruct (IH (join t0 (inferProbableTypeFromString v))) as (H0 & Hall & Hleast).
    split; [eapply widens_trans; [apply widens_join_l|exact H0]|].
    split.
    + constructor; [eapply widens_trans; [apply widens_join_r|exact H0]|exact Hall].
    + intros t' Ht0 Hcells. apply Forall_cons in Hcells as [Hv Hcells].
      apply Hleast; [apply join_least; assumption|exact Hcells].
Qed.

Lemma fold_join_mostSpecific (cells : list string) :
  mostSpecific (fold_left join (inferProbableTypeFromString <$> cells) FieldTypeInteger)
               cells.
Proof.
  destruct (fold_join_least cells FieldTypeInteger) as (H0 & Hall & Hleast).
  split; [|split; [exact Hall|]].
  - intros Heq. rewrite Heq in H0. unfold widens in H0; simpl in H0; lia.
  - intros t' Ht' Hcells. apply Hleast; [|exact Hcells].
    destruct t'; unfold widens; simpl; (congruence || lia).
Qed.

(** The most specific type is unique. *)
Lemma mostSpecific_unique (t1 t2 : FieldType) (cells : list string) :
  mostSpecific t1 cells -> mostSpecific t2 cells -> t1 = t2.
Proof.
  intros (N1 & A1 & L1) (N2 & A2 & L2).
  apply strictness_inj.
  pose proof (L1 t2 N2 A2). pose proof (L2 t1 N1 A1).
  unfold widens in *; lia.
Qed.

(** ** The probe: [strconv.ParseInt] on base 10 and 64 bits *)

Local Open Scope Z_scope.

Lemma isDigit_spec (c : Z) : strconv.isDigit c = true <-> 48 <= c <= 57.
Proof.
  unfold strconv.isDigit, strconv.between.
  change (ch "0") with 48. change (ch "9") with 57.
  rewrite andb_true_iff, !Z.leb_le. tauto.
Qed.

Lemma lower_digit (c : Z) : 48 <= c <= 57 -> strconv.lower c = c.
Proof.
  intros H. unfold strconv.lower.
  assert (Hc : c = 48 \/ c = 49 \/ c = 50 \/ c = 51 \/ c = 52 \/
               c = 53 \/ c = 54 \/ c = 55 \/ c = 56 \/ c = 57) by lia.
  repeat (destruct Hc as [-> | Hc]; [reflexivity|]). now subst.
Qed.

Lemma accumulate_cons (c : Z) (ds : list Z) (n : Z) :
  accumulate (c :: ds) n = accumulate ds (n * 10 + (c - 48)).
Proof. reflexivity. Qed.

Lemma accumulate_ge (ds : list Z) :
  forall n, allDigits ds = true -> 0 <= n -> n <= accumulate ds n.
Proof.
  induction ds as [|c ds IH]; intros n Hds Hn; [unfold accumulate; simpl; lia|].
  simpl in Hds. apply andb_true_iff in Hds as [Hc Hds].
  apply isDigit_spec in Hc. rewrite accumulate_cons.
  etransitivity; [|apply IH; [exact Hds|lia]]. lia.
Qed.

(** On decimal digits alone the loop of [ParseUint] returns their value
    when it fits in 64 bits, and the range error when it does not. *)
Lemma parseUintLoop_digits (ds : list Z) :
  forall (n : Z) (us : bool),
    allDigits ds = true -> 0 <= n <= strconv.maxUint64 ->
    strconv.parseUintLoop 10 false (strconv.maxUint64 / 10 + 1)
      ((2 ^ 64 - 1) mod 2 ^ 64) ds n us =
    if accumulate ds n <=? strconv.maxUint64
    then inl (accumulate ds n, us)
    else inr (strconv.maxUint64, strconv.ErrRange).
Proof.
  change (strconv.maxUint64 / 10 + 1) with 1844674407370955162.
  change ((2 ^ 64 - 1) mod 2 ^ 64) with 18446744073709551615.
  change strconv.maxUint64 with 18446744073709551615.
  induction ds as [|c ds IH]; intros n us Hds Hn.
  - unfold accumulate; simpl.
    destruct (Z.leb_spec n 18446744073709551615); [reflexivity|lia].
  - simpl in Hds. apply andb_true_iff in Hds as [Hc Hds].
    pose proof (proj1 (isDigit_spec c) Hc) as Hc'.
    rewrite accumulate_cons.
    cbn [strconv.parseUintLoop].
    rewrite andb_false_r, Hc. change (ch "0") with 48.
    destruct (Z.geb_spec (c - 48) 10) as [?|_]; [lia|].
    assert (Hmono : n * 10 + (c - 48) <= accumulate ds (n * 10 + (c - 48)))
      by (apply accumulate_ge; [exact Hds|lia]).
    destruct (Z.geb_spec n 1844674407370955162) as [Hcut|Hcut].
    { destruct (Z.leb_spec (accumulate ds (n * 10 + (c - 48))) 18446744073709551615);
        [lia|reflexivity]. }
    change (2 ^ 64) with 18446744073709551616.
    rewrite (Z.mod_small (n * 10)) by lia.
    destruct (Z_lt_ge_dec (n * 10 + (c - 48)) 18446744073709551616) as [Hfit|Hwrap].
    + rewrite (Z.mod_small (n * 10 + (c - 48))) by lia.
      destruct (Z.ltb_spec (n * 10 + (c - 48)) (n * 10)) as [?|_]; [lia|].
      destruct (Z.gtb_spec (n * 10 + (c - 48)) 18446744073709551615) as [?|_]; [lia|].
      simpl. apply IH; [exact Hds|lia].
    + replace ((n * 10 + (c - 48)) mod 18446744073709551616)
        with (n * 10 + (c - 48) - 18446744073709551616)
        by (apply Z.mod_unique with (q := 1); lia).
      destruct (Z.ltb_spec (n * 10 + (c - 48) - 18446744073709551616) (n * 10)) as [_|?];
        [|lia].
      simpl.
      destruct (Z.leb_spec (accumulate ds (n * 10 + (c - 48))) 18446744073709551615);
        [lia|reflexivity].
Qed.

(** Whatever the bytes, the loop's early returns are the syntax error
    and the range error with the largest [uint64]. *)
Lemma parseUintLoop_early (s : list Z) :
  forall (n : Z) (us : bool) (v : Z) (e : strconv.NumError),
    strconv.parseUintLoop 10 false (strconv.maxUint64 / 10 + 1)
      ((2 ^ 64 - 1) mod 2 ^ 64) s n us = inr (v, e) ->
    (v, e) = (0, strconv.ErrSyntax) \/ (v, e) = (strconv.maxUint64, strconv.ErrRange).
Proof.
  change ((2 ^ 64 - 1) mod 2 ^ 64) with strconv.maxUint64.
  induction s as [|c s IH]; intros n us v e H; [discriminate|].
  cbn [strconv.parseUintLoop] in H. rewrite andb_false_r in H.
  destruct (strconv.isDigit c);
    [|destruct (strconv.between (ch "a") (strconv.lower c) (ch "z"))];
    try (injection H as <- <-; now left);
    (destruct (_ >=? 10); [injection H as <- <-; now left|]);
    (destruct (n >=? _); [injection H as <- <-; now right|]);
    cbv zeta in H;
    (destruct (_ || _); [injection H as <- <-; now right|]);
    eapply IH; exact H.
Qed.

(** A byte that is no decimal digit makes the loop return early. *)
Lemma parseUintLoop_nondigit (s : list Z) :
  forall (n : Z) (us : bool),
    allDigits s = false ->
    exists v e,
      strconv.parseUintLoop 10 false (strconv.maxUint64 / 10 + 1)
        ((2 ^ 64 - 1) mod 2 ^ 64) s n us = inr (v, e).
Proof.
  induction s as [|c s IH]; intros n us Hs; [discriminate|].
  simpl in Hs. cbn [strconv.parseUintLoop]. rewrite andb_false_r.
  destruct (strconv.isDigit c) eqn:Hc.
  - simpl in Hs.
    destruct (_ >=? 10); [eauto|].
    destruct (n >=? _); [eauto|]. cbv zeta.
    destruct (_ || _); [eauto|]. apply IH; exact Hs.
  - destruct (strconv.between (ch "a") (strconv.lower c) (ch "z")) eqn:Hb; [|eauto].
    unfold strconv.between in Hb. apply andb_true_iff in Hb as [Hb _].
    apply Z.leb_le in Hb.
    destruct (Z.geb_spec (strconv.lower c - ch "a" + 10) 10) as [_|?]; [eauto|lia].
Qed.

(** [ParseInt] once the sign is split off, on base 10 and 64 bits. *)
Lemma ParseInt_after_sign (neg : bool) (ds : list Z) :
  let r :=
    let '(un, err) := strconv.ParseUint ds 10 64 in
    match err with
    | Some strconv.ErrSyntax | Some strconv.ErrBase | Some strconv.ErrBitSize => (0, err)
    | _ =>
        if negb neg && (un >=? 2 ^ 63) then (2 ^ 63 - 1, Some strconv.ErrRange)
        else if neg && (un >? 2 ^ 63) then (- 2 ^ 63, Some strconv.ErrRange)
        else (if neg then - un else un, None)
    end in
  match ds with
  | [] => r = (0, Some strconv.ErrSyntax)
  | _ :: _ =>
      if allDigits ds then
        let v := if neg then - digitsValue ds else digitsValue ds in
        if (minInt64 <=? v) && (v <=? maxInt64) then r = (v, None)
        else snd r = Some strconv.ErrRange
      else exists e, snd r = Some e
  end.
Proof.
  destruct ds as [|c ds]; [reflexivity|].
  set (s := c :: ds).
  assert (Hunfold : strconv.ParseUint s 10 64 =
    match strconv.parseUintLoop 10 false (strconv.maxUint64 / 10 + 1)
            ((2 ^ 64 - 1) mod 2 ^ 64) s 0 false with
    | inr (v, e) => (v, Some e)
    | inl (n, underscores) =>
        if underscores && negb (strconv.underscoreOK s)
        then (0, Some strconv.ErrSyntax) else (n, None)
    end) by reflexivity.
  cbv zeta. rewrite Hunfold. clear Hunfold.
  destruct (allDigits s) eqn:Hs.
  - rewrite parseUintLoop_digits by (try exact Hs; unfold strconv.maxUint64; lia).
    fold (digitsValue s).
    pose proof (accumulate_ge s 0 Hs ltac:(lia)) as Hpos. fold (digitsValue s) in Hpos.
    unfold minInt64, maxInt64, strconv.maxUint64.
    generalize dependent (digitsValue s). intros dv Hpos.
    change (2 ^ 64 - 1) with 18446744073709551615.
    change (2 ^ 63) with 9223372036854775808.
    destruct neg; simpl; repeat (progress (Zcompare; simpl)); try reflexivity; lia.
  - destruct (parseUintLoop_nondigit s 0 false Hs) as (v & e & Hloop).
    rewrite Hloop.
    destruct (parseUintLoop_early s 0 false v e Hloop) as [[= -> ->]|[= -> ->]].
    + eexists; reflexivity.
    + destruct neg; eexists; reflexivity.
Qed.

(** [ParseInt(s, 10, 64)] succeeds exactly on the base-10 integer
    literals whose value fits in a signed 64-bit integer, and returns
    that value; on the other literals it fails with the range error. *)
Lemma ParseInt_spec (s : string) :
  match intLiteral s with
  | Some v =>
      if (minInt64 <=? v) && (v <=? maxInt64)
      then strconv.ParseInt s 10 64 = (v, None)
      else snd (strconv.ParseInt s 10 64) = Some strconv.ErrRange
  | None => exists e, snd (strconv.ParseInt s 10 64) = Some e
  end.
Proof.
  unfold intLiteral, strconv.ParseInt.
  destruct (bytes s) as [|c0 s']; [eexists; reflexivity|].
  change (if 64 =? 0 then strconv.IntSize else 64) with 64.
  change (64 - 1) with 63.
  destruct (c0 =? ch "+"); [|destruct (c0 =? ch "-")].
  - pose proof (ParseInt_after_sign false s') as H. cbv zeta in H.
    destruct s' as [|c ds]; [eexists; reflexivity|].
    destruct (allDigits (c :: ds)); exact H.
  - pose proof (ParseInt_after_sign true s') as H. cbv zeta in H.
    destruct s' as [|c ds]; [eexists; reflexivity|].
    destruct (allDigits (c :: ds)); exact H.
  - pose proof (ParseInt_after_sign false (c0 :: s')) as H. cbv zeta in H.
    destruct (allDigits (c0 :: s')); exact H.
Qed.

(** ** The probe: [strconv.ParseFloat] on integer literals *)

Lemma special_digit (c : Z) (s : list Z) :
  strconv.isDigit c = true -> strconv.special (c :: s) = None.
Proof.
  intros Hc. apply isDigit_spec in Hc. unfold strconv.special.
  change (ch "+") with 43. change (ch "-") with 45. change (ch "i") with 105.
  change (ch "I") with 73. change (ch "n") with 110. change (ch "N") with 78.
  Zcompare; try lia; reflexivity.
Qed.

Lemma special_signed_digit (c0 c : Z) (s : list Z) :
  (c0 =? ch "+") || (c0 =? ch "-") = true ->
  strconv.isDigit c = true ->
  strconv.special (c0 :: c :: s) = None.
Proof.
  intros Hsign Hc. apply isDigit_spec in Hc.
  unfold strconv.special. rewrite Hsign.
  unfold strconv.infinityPrefix.
  change (bytes "infinity") with [105; 110; 102; 105; 110; 105; 116; 121].
  cbn [strconv.commonPrefixLenIgnoreCase].
  unfold strconv.between. change (ch "A") with 65. change (ch "Z") with 90.
  change (ch "a" - 65) with 32.
  destruct (Z.leb_spec 65 c); destruct (Z.leb_spec c 90); simpl; try lia;
    destruct (Z.eqb_spec c 105); try lia; reflexivity.
Qed.

Lemma hexPrefix_digits (ds : list Z) :
  allDigits ds = true -> strconv.hexPrefix ds = (false, ds).
Proof.
  intros Hds. destruct ds as [|c [|x [|y ds]]]; try reflexivity.
  simpl in Hds. apply andb_true_iff in Hds as [_ Hds].
  apply andb_true_iff in Hds as [Hx _]. apply isDigit_spec in Hx.
  unfold strconv.hexPrefix. rewrite lower_digit by exact Hx.
  change (ch "x") with 120.
  destruct (Z.eqb_spec x 120); [lia|]. now rewrite andb_false_r.
Qed.

(** On decimal digits alone the mantissa loop of [readFloat] reads to
    the end and accumulates their value; it sees no point and no
    underscore. *)
Lemma readMantissa_digits (ds : list Z) :
  forall st : strconv.scan,
    allDigits ds = true ->
    strconv.sawdot st = false ->
    0 <= strconv.nd st ->
    (strconv.nd st = 0 -> strconv.mantissa st = 0) ->
    exists nd' dp',
      strconv.readMantissa 10 ds st =
        (strconv.mkScan (accumulate ds (strconv.mantissa st)) nd' dp' false
           (strconv.sawdigits st || match ds with [] => false | _ => true end)
           (strconv.underscores st), []).
Proof.
  induction ds as [|c ds IH]; intros [m n d dot dig us] Hds Hdot Hn Hm;
    simpl in Hdot, Hn, Hm; subst dot.
  - exists n, d. simpl. now rewrite orb_false_r.
  - simpl in Hds. apply andb_true_iff in Hds as [Hc Hds].
    pose proof (proj1 (isDigit_spec c) Hc) as Hc'.
    cbn [strconv.readMantissa strconv.mantissa strconv.nd strconv.dp strconv.sawdot
         strconv.sawdigits strconv.underscores].
    rewrite Hc. change (ch "_") with 95. change (ch ".") with 46. change (ch "0") with 48.
    destruct (Z.eqb_spec c 95); [lia|]. destruct (Z.eqb_spec c 46); [lia|].
    rewrite accumulate_cons.
    destruct ((c =? 48) && (n =? 0)) eqn:Hzero.
    + apply andb_true_iff in Hzero as [Hc0 Hn0].
      apply Z.eqb_eq in Hc0, Hn0. subst c n. rewrite (Hm eq_refl).
      destruct (IH (strconv.mkScan 0 0 (d - 1) false true us) Hds eq_refl)
        as (nd' & dp' & ->); simpl; try lia.
      exists nd', dp'. now rewrite orb_true_r.
    + destruct (IH (strconv.mkScan (m * 10 + (c - 48)) (n + 1) d false true us) Hds eq_refl)
        as (nd' & dp' & ->); simpl; try lia.
      exists nd', dp'. now rewrite orb_true_r.
Qed.

Lemma readFloat_digits (c0 : Z) (s' ds : list Z) :
  (if (c0 =? ch "+") || (c0 =? ch "-") then s' else c0 :: s') = ds ->
  ds <> [] -> allDigits ds = true ->
  strconv.readFloat (c0 :: s') = Some (false, digitsValue ds, 0, []).
Proof.
  intros Hsign Hne Hds. unfold strconv.readFloat. cbv zeta.
  rewrite Hsign, (hexPrefix_digits ds Hds).
  destruct (readMantissa_digits ds (strconv.mkScan 0 0 0 false false false) Hds eq_refl)
    as (nd' & dp' & ->); simpl; try lia.
  destruct ds as [|c ds]; [contradiction|]. simpl.
  now rewrite Z.sub_diag.
Qed.

Lemma overflows_below_threshold (m : Z) :
  0 <= m < 2 ^ 1024 - 2 ^ 970 -> strconv.overflows 10 m 10 0 = false.
Proof.
  intros Hm. unfold strconv.overflows.
  change (strconv.overflowThreshold 10) with (2 ^ 1024 - 2 ^ 970).
  destruct (m =? 0); [reflexivity|].
  change (0 <=? 0) with true. cbv iota.
  rewrite Z.pow_0_r, Z.mul_1_r. apply Z.leb_gt. lia.
Qed.

(** [ParseFloat] accepts every base-10 integer literal that is less
    than half a unit in the last place beyond the largest [float64]. *)
Lemma ParseFloat_intLiteral (s : string) (v : Z) :
  intLiteral s = Some v ->
  Z.abs v < 2 ^ 1024 - 2 ^ 970 ->
  strconv.ParseFloat s 10 = None.
Proof.
  unfold intLiteral, strconv.ParseFloat.
  destruct (bytes s) as [|c0 s'] eqn:Hb; [discriminate|].
  intros Hlit Habs.
  assert (Hcore : exists ds,
             (if (c0 =? ch "+") || (c0 =? ch "-") then s' else c0 :: s') = ds /\
             ds <> [] /\ allDigits ds = true /\ Z.abs v = digitsValue ds /\
             strconv.special (c0 :: s') = None).
  { destruct (c0 =? ch "+") eqn:Hplus; [|destruct (c0 =? ch "-") eqn:Hminus];
      cbn [orb] in *.
    - destruct s' as [|c ds]; [discriminate|].
      destruct (allDigits (c :: ds)) eqn:Hds; [|discriminate].
      injection Hlit as <-. exists (c :: ds).
      pose proof (accumulate_ge (c :: ds) 0 Hds ltac:(lia)).
      split; [reflexivity|]. split; [discriminate|]. split; [exact Hds|].
      split; [unfold digitsValue; lia|].
      apply special_signed_digit; [now rewrite Hplus|].
      simpl in Hds. now apply andb_true_iff in Hds as [Hc _].
    - destruct s' as [|c ds]; [discriminate|].
      destruct (allDigits (c :: ds)) eqn:Hds; [|discriminate].
      injection Hlit as <-. exists (c :: ds).
      pose proof (accumulate_ge (c :: ds) 0 Hds ltac:(lia)).
      split; [reflexivity|]. split; [discriminate|]. split; [exact Hds|].
      split; [unfold digitsValue; lia|].
      apply special_signed_digit; [now rewrite Hminus, orb_true_r|].
      simpl in Hds. now apply andb_true_iff in Hds as [Hc _].
    - destruct (allDigits (c0 :: s')) eqn:Hds; [|discriminate].
      injection Hlit as <-. exists (c0 :: s').
      pose proof (accumulate_ge (c0 :: s') 0 Hds ltac:(lia)).
      split; [reflexivity|]. split; [discriminate|]. split; [exact Hds|].
      split; [unfold digitsValue; lia|].
      apply special_digit.
      simpl in Hds. now apply andb_true_iff in Hds as [Hc _]. }
  destruct Hcore as (ds & Hsign & Hne & Hds & Hv & Hspecial).
  rewrite Hspecial, (readFloat_digits c0 s' ds Hsign Hne Hds).
  rewrite overflows_below_threshold; [reflexivity|].
  pose proof (accumulate_ge ds 0 Hds ltac:(lia)). unfold digitsValue in *. lia.
Qed.

(** ** The properties of the importer *)

Local Open Scope nat_scope.

(** A successful [Import] read a header and then nothing but records of
    the header's length, and appended them all. *)
Lemma Import_success_inv (c : DataSetCache) (fs : os.FileSystem) (URI : string)
    (c' : DataSetCache) :
  Import c fs URI = Returns None c' ->
  exists (header : list string) (rows : list (list string)),
    fs URI = inl (csv.Fields header :: (csv.Fields <$> rows)) /\
    Forall (fun row => length row = length header) rows /\
    c' = extend (mkDataSetCache header (replicate (length header) FieldTypeInteger)
                   (FieldData c)) rows.
Proof.
  intros H. apply Import_returns_inv in H as [(_ & [e He] & _)|H]; [discriminate|].
  destruct H as (header & rows & tail & Hfs & Hrows & -> & ->).
  rewrite app_nil_r in Hfs. eauto.
Qed.

(** And such a source is imported with success. *)
Lemma Import_success (c : DataSetCache) (fs : os.FileSystem) (URI : string)
    (header : list string) (rows : list (list string)) :
  fs URI = inl (csv.Fields header :: (csv.Fields <$> rows)) ->
  Forall (fun row => length row = length header) rows ->
  Import c fs URI =
    Returns None (extend (mkDataSetCache header
                            (replicate (length header) FieldTypeInteger)
                            (FieldData c)) rows).
Proof.
  intros Hfs Hrows.
  rewrite <- (app_nil_r (csv.Fields <$> rows)) in Hfs.
  now rewrite (Import_rows c fs URI header rows [] Hfs Hrows).
Qed.

(** C1.  After a successful [Import], whatever the source (a header
    and any number of data rows, as the success shows), the final type
    of each field is the fold of the join over the probes of the cells
    of its column, from the Integer seed; that is, the most specific of
    Integer, Float and String that every cell of the column probes as,
    or as a narrower one. *)
Theorem final_type_is_most_specific (c : DataSetCache) (fs : os.FileSystem)
    (URI : string) (c' : DataSetCache) :
  Import c fs URI = Returns None c' ->
  exists header rows,
    fs URI = inl (csv.Fields header :: (csv.Fields <$> rows)) /\
    FieldNames c' = header /\
    length (FieldTypes c') = length header /\
    forall column, column < length header ->
      exists t,
        FieldTypes c' !! column = Some t /\
        length (columnCells column rows) = length rows /\
        t = fold_left join (inferProbableTypeFromString <$> columnCells column rows)
              FieldTypeInteger /\
        mostSpecific t (columnCells column rows).
Proof.
  intros H.
  destruct (Import_success_inv _ _ _ _ H) as (header & rows & Hfs & Hrows & ->).
  exists header, rows. split; [exact Hfs|]. split; [reflexivity|].
  assert (Hrows' : Forall (fun row => length row
            = length (replicate (length header) FieldTypeInteger)) rows)
    by now rewrite length_replicate.
  split; [simpl; now rewrite length_widenTypes, length_replicate|].
  intros column Hcol. eexists. split; [|split; [|split; [reflexivity|]]].
  - simpl. apply widenTypes_lookup; [exact Hrows'|].
    now apply lookup_replicate_2.
  - apply length_columnCells.
    eapply Forall_impl; [exact Hrows|]. simpl; intros; lia.
  - apply fold_join_mostSpecific.
Qed.

Lemma final_type_is_most_specific_witness :
  let c' := mkDataSetCache salesHeader
              [FieldTypeInteger; FieldTypeFloat; FieldTypeString] salesRows in
  Import New exampleFS "sales.csv" = Returns None c' /\
  exists header rows,
    exampleFS "sales.csv"%string = inl (csv.Fields header :: (csv.Fields <$> rows)) /\
    FieldNames c' = header /\
    length (FieldTypes c') = length header /\
    forall column, column < length header ->
      exists t,
        FieldTypes c' !! column = Some t /\
        length (columnCells column rows) = length rows /\
        t = fold_left join (inferProbableTypeFromString <$> columnCells column rows)
              FieldTypeInteger /\
        mostSpecific t (columnCells column rows).
Proof.
  cbv zeta. split; [vm_compute; reflexivity|].
  apply (final_type_is_most_specific New exampleFS "sales.csv"
           (mkDataSetCache salesHeader
              [FieldTypeInteger; FieldTypeFloat; FieldTypeString] salesRows)).
  vm_compute. reflexivity.
Defined.

(** Scenarios A and B: the types are Integer, Float, String; a text
    cell makes its column String. *)
Example scenario_A :
  Import New exampleFS "sales.csv" =
    Returns None (mkDataSetCache salesHeader
                    [FieldTypeInteger; FieldTypeFloat; FieldTypeString] salesRows).
Proof. vm_compute. reflexivity. Qed.

Example scenario_B :
  Import New exampleFS "abc.csv" =
    Returns None (mkDataSetCache ["a"%string] [FieldTypeString] [["abc"%string]]).
Proof. vm_compute. reflexivity. Qed.

(** C2.  From any point of the row loop of [Import] (the cache [c] as
    the rows read so far left it, [input] the rows still to come) to
    the point where the loop ends, normally or by an error, every
    field's type has moved in the widening direction or stayed; a field
    that is String stays String. *)
Theorem field_types_only_widen (URI : string) (fieldsPerRecord : Z)
    (input : csv.File) (c : DataSetCache) (e : option error) (c' : DataSetCache) :
  importRows URI fieldsPerRecord input c = Returns e c' ->
  Forall2 widens (FieldTypes c) (FieldTypes c') /\
  forall column,
    FieldTypes c !! column = Some FieldTypeString ->
    FieldTypes c' !! column = Some FieldTypeString.
Proof.
  intros H. apply importRows_widens in H.
  split; [exact H|]. intros column. now apply Forall2_widens_String.
Qed.

Lemma field_types_only_widen_witness :
  let c := mkDataSetCache ["a"; "b"; "c"]%string
             [FieldTypeFloat; FieldTypeString; FieldTypeInteger] [] in
  let c' := mkDataSetCache ["a"; "b"; "c"]%string
              [FieldTypeFloat; FieldTypeString; FieldTypeString]
              [["7"; "8"; "9.5"]; ["1"; "2.5"; "x"]]%string in
  let input := [csv.Fields ["7"; "8"; "9.5"]; csv.Fields ["1"; "2.5"; "x"]]%string in
  importRows "t.csv" 3 input c = Returns None c' /\
  Forall2 widens (FieldTypes c) (FieldTypes c') /\
  forall column,
    FieldTypes c !! column = Some FieldTypeString ->
    FieldTypes c' !! column = Some FieldTypeString.
Proof.
  cbv zeta. split; [vm_compute; reflexivity|].
  apply (field_types_only_widen "t.csv" 3
           [csv.Fields ["7"; "8"; "9.5"]; csv.Fields ["1"; "2.5"; "x"]]%string
           (mkDataSetCache ["a"; "b"; "c"]%string
              [FieldTypeFloat; FieldTypeString; FieldTypeInteger] [])
           None
           (mkDataSetCache ["a"; "b"; "c"]%string
              [FieldTypeFloat; FieldTypeString; FieldTypeString]
              [["7"; "8"; "9.5"]; ["1"; "2.5"; "x"]]%string)).
  vm_compute. reflexivity.
Defined.

(** The same over two runs: the types [Import] leaves after a source
    are widened, field by field, by the types it leaves after the same
    source with more records, whatever they are. *)
Lemma Import_more_rows_widens (c : DataSetCache) (fs fs' : os.FileSystem)
    (URI : string) (header : list string) (rows : list (list string))
    (more : csv.File) (e : option error) (c2 : DataSetCache) :
  fs URI = inl (csv.Fields header :: (csv.Fields <$> rows)) ->
  fs' URI = inl (csv.Fields header :: (csv.Fields <$> rows) ++ more) ->
  Forall (fun row => length row = length header) rows ->
  Import c fs' URI = Returns e c2 ->
  exists c1,
    Import c fs URI = Returns None c1 /\
    Forall2 widens (FieldTypes c1) (FieldTypes c2).
Proof.
  intros Hfs Hfs' Hrows H2.
  eexists. split; [apply Import_success; eassumption|].
  rewrite (Import_rows c fs' URI header rows _ Hfs' Hrows) in H2.
  apply importRows_widens in H2. exact H2.
Qed.

(** C3.  When a data row fails to lex after rows the reader accepted,
    [Import] returns the parse error, which names the resource, and the
    row store has grown by exactly the rows before the failing one:
    nothing is rolled back. *)
Theorem malformed_row_keeps_earlier_rows (c : DataSetCache) (fs : os.FileSystem)
    (URI : string) (header : list string) (good : list (list string))
    (cause : csv.LexError) (rest : csv.File) :
  fs URI = inl (csv.Fields header :: (csv.Fields <$> good)
                  ++ csv.Malformed cause :: rest) ->
  Forall (fun row => length row = length header) good ->
  exists err c',
    Import c fs URI = Returns (Some err) c' /\
    err = CouldNotParse URI (csv.ParseError cause) /\
    errorURI err = URI /\
    FieldNames c' = header /\
    FieldData c' = FieldData c ++ good.
Proof.
  intros Hfs Hgood. do 2 eexists. split.
  - rewrite (Import_rows c fs URI header good _ Hfs Hgood).
    apply importRows_Malformed.
  - split; [reflexivity|]. split; [reflexivity|]. split; reflexivity.
Qed.

Lemma malformed_row_keeps_earlier_rows_witness :
  exampleFS "malformed.csv"%string
    = inl (csv.Fields ["a"; "b"]%string :: (csv.Fields <$> goodRows)
             ++ csv.Malformed csv.ErrQuote :: [csv.Fields ["3"; "z"]%string]) /\
  Forall (fun row => length row = length ["a"; "b"]%string) goodRows /\
  exists err c',
    Import New exampleFS "malformed.csv" = Returns (Some err) c' /\
    err = CouldNotParse "malformed.csv" (csv.ParseError csv.ErrQuote) /\
    errorURI err = "malformed.csv"%string /\
    FieldNames c' = ["a"; "b"]%string /\
    FieldData c' = goodRows.
Proof.
  split; [reflexivity|]. split; [repeat constructor|].
  apply (malformed_row_keeps_earlier_rows New exampleFS "malformed.csv"
           ["a"; "b"]%string goodRows csv.ErrQuote [csv.Fields ["3"; "z"]%string]);
    [reflexivity|repeat constructor].
Defined.

(** More generally: under a header with a column, if any record of
    the source is malformed, [Import] returns a parse error, and the row
    store has grown by the records read before the first one the reader
    refused. *)
Lemma importRows_refuses (URI : string) (input : csv.File) :
  forall c : DataSetCache,
    FieldTypes c <> [] ->
    (exists cause, In (csv.Malformed cause) input) ->
    exists cause good rest,
      importRows URI (Z.of_nat (length (FieldTypes c))) input c
        = Returns (Some (CouldNotParse URI cause)) (extend c good) /\
      input = (csv.Fields <$> good) ++ rest /\ rest <> [] /\
      Forall (fun row => length row = length (FieldTypes c)) good.
Proof.
  induction input as [|x input IH]; intros c Hne [cause Hin]; [destruct Hin|].
  destruct x as [record|cause'].
  - destruct Hin as [Hx|Hin]; [discriminate|].
    rewrite importRows_Fields. case_decide as Hrow.
    + assert (Hlen : length (FieldTypes (extend c [record])) = length (FieldTypes c))
        by (apply length_types_extend; constructor; [exact Hrow|constructor]).
      destruct (IH (extend c [record])) as (cause'' & good & rest & Hrun & -> & Hrest & Hgood).
      * intros Hnil. rewrite Hnil in Hlen. destruct (FieldTypes c); [now apply Hne|discriminate].
      * eauto.
      * rewrite Hlen in Hrun, Hgood. rewrite extend_cons in Hrun.
        exists cause'', (record :: good), rest.
        split; [exact Hrun|]. split; [reflexivity|]. split; [exact Hrest|].
        constructor; assumption.
    + case_decide as Hzero; [destruct (FieldTypes c); [now destruct Hne|discriminate]|].
      exists csv.ErrFieldCount, [], (csv.Fields record :: input).
      rewrite extend_nil. repeat split; [discriminate|constructor].
  - rewrite importRows_Malformed.
    exists (csv.ParseError cause'), [], (csv.Malformed cause' :: input).
    rewrite extend_nil. repeat split; [discriminate|constructor].
Qed.

Lemma Import_refuses (c : DataSetCache) (fs : os.FileSystem) (URI : string)
    (header : list string) (input : csv.File) :
  fs URI = inl (csv.Fields header :: input) ->
  header <> [] ->
  (exists cause, In (csv.Malformed cause) input) ->
  exists cause c' good rest,
    Import c fs URI = Returns (Some (CouldNotParse URI cause)) c' /\
    input = (csv.Fields <$> good) ++ rest /\ rest <> [] /\
    FieldData c' = FieldData c ++ good.
Proof.
  intros Hfs Hne Hbad.
  rewrite (Import_header c fs URI header input Hfs).
  set (c0 := mkDataSetCache header (replicate (length header) FieldTypeInteger)
               (FieldData c)).
  assert (Hlen : length (FieldTypes c0) = length header) by apply length_replicate.
  destruct (importRows_refuses URI input c0) as (cause & good & rest & Hrun & Hin & Hrest & _).
  - intros Hnil. rewrite Hnil in Hlen. destruct header; [now apply Hne|discriminate].
  - exact Hbad.
  - rewrite Hlen in Hrun. exists cause, (extend c0 good), good, rest. auto.
Qed.

(** C4.  When the resource cannot be opened, or the end of input is hit
    while reading the header, [Import] returns an error naming the
    resource and leaves the cache as it was; a new cache keeps its
    field names, field types and row store empty. *)
Theorem early_errors_leave_cache_untouched (c : DataSetCache) (fs : os.FileSystem)
    (URI : string) :
  (exists cause, fs URI = inr cause) \/ fs URI = inl [] ->
  exists err,
    errorURI err = URI /\
    Import c fs URI = Returns (Some err) c /\
    Import New fs URI = Returns (Some err) (mkDataSetCache [] [] []).
Proof.
  intros [[cause Hfs]|Hfs].
  - exists (CouldNotOpen URI cause). split; [reflexivity|].
    split; apply Import_early; exact Hfs.
  - exists (UnexpectedEOFInHeader URI). split; [reflexivity|].
    split; apply Import_early; exact Hfs.
Qed.

Lemma early_errors_leave_cache_untouched_witness :
  ((exists cause, exampleFS "missing.csv"%string = inr cause)
   \/ exampleFS "missing.csv"%string = inl []) /\
  exists err,
    errorURI err = "missing.csv"%string /\
    Import (mkDataSetCache ["a"%string] [FieldTypeFloat] [["1.5"%string]])
           exampleFS "missing.csv"
      = Returns (Some err)
          (mkDataSetCache ["a"%string] [FieldTypeFloat] [["1.5"%string]]) /\
    Import New exampleFS "missing.csv" = Returns (Some err) (mkDataSetCache [] [] []).
Proof.
  split; [left; exists os.ErrNotExist; reflexivity|].
  apply (early_errors_leave_cache_untouched
           (mkDataSetCache ["a"%string] [FieldTypeFloat] [["1.5"%string]])
           exampleFS "missing.csv").
  left; exists os.ErrNotExist; reflexivity.
Defined.

(** Scenario E and the empty file, on a new cache. *)
Example scenario_E :
  Import New exampleFS "missing.csv" =
    Returns (Some (CouldNotOpen "missing.csv" os.ErrNotExist)) New /\
  Import New exampleFS "empty.csv" =
    Returns (Some (UnexpectedEOFInHeader "empty.csv")) New.
Proof. split; reflexivity. Qed.

(** Scenario D: two good rows, then a record with an unbalanced quote. *)
Example scenario_D :
  Import New exampleFS "malformed.csv" =
    Returns (Some (CouldNotParse "malformed.csv" (csv.ParseError csv.ErrQuote)))
      (mkDataSetCache ["a"; "b"]%string [FieldTypeFloat; FieldTypeString] goodRows).
Proof. vm_compute. reflexivity. Qed.

(** C5.  After a successful [Import] into a cache whose row store was
    empty, as that of a new cache is, the row store holds the data rows
    of the source, so its length is the number of records of the source
    less the header. *)
Theorem row_count_is_data_rows (c : DataSetCache) (fs : os.FileSystem)
    (URI : string) (file : csv.File) (c' : DataSetCache) :
  FieldData c = [] ->
  fs URI = inl file ->
  Import c fs URI = Returns None c' ->
  length (FieldData c') = length file - 1 /\
  exists header rows,
    file = csv.Fields header :: (csv.Fields <$> rows) /\ FieldData c' = rows.
Proof.
  intros Hnew Hfs H.
  destruct (Import_success_inv _ _ _ _ H) as (header & rows & Hfile & _ & ->).
  rewrite Hfs in Hfile. injection Hfile as ->.
  simpl. rewrite Hnew. simpl. split; [|eauto].
  rewrite length_fmap. lia.
Qed.

Lemma row_count_is_data_rows_witness :
  let file := csv.Fields salesHeader :: (csv.Fields <$> salesRows) in
  let c' := mkDataSetCache salesHeader
              [FieldTypeInteger; FieldTypeFloat; FieldTypeString] salesRows in
  FieldData New = [] /\
  exampleFS "sales.csv"%string = inl file /\
  Import New exampleFS "sales.csv" = Returns None c' /\
  length (FieldData c') = length file - 1 /\
  exists header rows,
    file = csv.Fields header :: (csv.Fields <$> rows) /\ FieldData c' = rows.
Proof.
  cbv zeta. split; [reflexivity|]. split; [reflexivity|].
  split; [vm_compute; reflexivity|].
  apply (row_count_is_data_rows New exampleFS "sales.csv"
           (csv.Fields salesHeader :: (csv.Fields <$> salesRows))
           (mkDataSetCache salesHeader
              [FieldTypeInteger; FieldTypeFloat; FieldTypeString] salesRows));
    [reflexivity|reflexivity|vm_compute; reflexivity].
Defined.

(** Without the empty row store the count is not that of the data rows:
    after the two rows of one source, the single row of another makes
    three. *)
Lemma row_count_on_reused_cache_counterexample :
  let c1 := mkDataSetCache salesHeader
              [FieldTypeInteger; FieldTypeFloat; FieldTypeString] salesRows in
  let file := [csv.Fields ["a"%string]; csv.Fields ["abc"%string]] in
  let c2 := mkDataSetCache ["a"%string] [FieldTypeString]
              (salesRows ++ [["abc"%string]]) in
  Import New exampleFS "sales.csv" = Returns None c1 /\
  exampleFS "abc.csv"%string = inl file /\
  Import c1 exampleFS "abc.csv" = Returns None c2 /\
  length (FieldData c2) = 3 /\
  length file - 1 = 1 /\
  length (FieldData c2) <> length file - 1.
Proof.
  cbv zeta. split; [vm_compute; reflexivity|]. split; [reflexivity|].
  split; [vm_compute; reflexivity|]. split; [reflexivity|].
  split; [reflexivity|]. simpl. discriminate.
Qed.

(** On a cache that already holds rows, the count grows by the number
    of data rows. *)
Lemma row_count_grows (c : DataSetCache) (fs : os.FileSystem) (URI : string)
    (file : csv.File) (c' : DataSetCache) :
  fs URI = inl file ->
  Import c fs URI = Returns None c' ->
  length (FieldData c') = length (FieldData c) + (length file - 1).
Proof.
  intros Hfs H.
  destruct (Import_success_inv _ _ _ _ H) as (header & rows & Hfile & _ & ->).
  rewrite Hfs in Hfile. injection Hfile as ->.
  simpl. rewrite length_app, length_fmap. lia.
Qed.

(** C6.  On a header and no data row [Import] succeeds, and every field
    has the type Integer, the seed. *)
Theorem header_only_types_are_Integer (c : DataSetCache) (fs : os.FileSystem)
    (URI : string) (header : list string) :
  fs URI = inl [csv.Fields header] ->
  exists c',
    Import c fs URI = Returns None c' /\
    FieldNames c' = header /\
    length (FieldTypes c') = length header /\
    Forall (fun t => t = FieldTypeInteger) (FieldTypes c') /\
    forall column name,
      header !! column = Some name ->
      FieldTypes c' !! column = Some FieldTypeInteger.
Proof.
  intros Hfs. eexists. split.
  - apply (Import_success c fs URI header []); [exact Hfs|constructor].
  - simpl. split; [reflexivity|]. split; [apply length_replicate|].
    split.
    + apply Forall_forall. intros t Ht. now apply elem_of_replicate in Ht.
    + intros column name Hname. apply lookup_replicate_2.
      eapply lookup_lt_Some; exact Hname.
Qed.

Lemma header_only_types_are_Integer_witness :
  exampleFS "header.csv"%string = inl [csv.Fields ["a"%string]] /\
  exists c',
    Import New exampleFS "header.csv" = Returns None c' /\
    FieldNames c' = ["a"%string] /\
    length (FieldTypes c') = length ["a"%string] /\
    Forall (fun t => t = FieldTypeInteger) (FieldTypes c') /\
    forall column name,
      ["a"%string] !! column = Some name ->
      FieldTypes c' !! column = Some FieldTypeInteger.
Proof.
  split; [reflexivity|].
  apply (header_only_types_are_Integer New exampleFS "header.csv" ["a"%string]).
  reflexivity.
Defined.

(** Scenario C. *)
Example scenario_C :
  Import New exampleFS "header.csv" =
    Returns None (mkDataSetCache ["a"%string] [FieldTypeInteger] []).
Proof. reflexivity. Qed.

(** C7.  The probe is a function of the string alone.  It answers
    Integer exactly for the base-10 integer literals (an optional sign,
    then decimal digits) whose value fits in a signed 64-bit integer;
    otherwise Float exactly when [strconv.ParseFloat] accepts the
    string; otherwise String.  It never answers Unknown. *)
Theorem probe_classification (s : string) :
  (inferProbableTypeFromString s = FieldTypeInteger <->
     exists v, intLiteral s = Some v /\ (minInt64 <= v <= maxInt64)%Z) /\
  (inferProbableTypeFromString s = FieldTypeFloat <->
     ~ (exists v, intLiteral s = Some v /\ (minInt64 <= v <= maxInt64)%Z) /\
     strconv.ParseFloat s 10 = None) /\
  (inferProbableTypeFromString s = FieldTypeString <->
     ~ (exists v, intLiteral s = Some v /\ (minInt64 <= v <= maxInt64)%Z) /\
     strconv.ParseFloat s 10 <> None) /\
  inferProbableTypeFromString s <> FieldTypeUnknown.
Proof.
  assert (Hint : snd (strconv.ParseInt s 10 64) = None <->
            exists v, intLiteral s = Some v /\ (minInt64 <= v <= maxInt64)%Z).
  { pose proof (ParseInt_spec s) as H.
    destruct (intLiteral s) as [v|].
    - destruct (Z.leb_spec minInt64 v); destruct (Z.leb_spec v maxInt64); simpl in H;
        try rewrite H; simpl; split; try discriminate; eauto;
        intros (v' & [= <-] & ?); lia.
    - destruct H as [e ->]. split; [discriminate|]. intros (v & ? & _); discriminate. }
  unfold inferProbableTypeFromString.
  destruct (strconv.ParseInt s 10 64) as [v [e|]]; simpl in Hint.
  - assert (Hno : ~ (exists v, intLiteral s = Some v /\ (minInt64 <= v <= maxInt64)%Z))
      by (intros H; apply Hint in H; discriminate).
    destruct (strconv.ParseFloat s 10) as [e'|];
      repeat split; try discriminate; try congruence; try tauto;
      intros [_ H]; congruence.
  - assert (Hyes : exists v, intLiteral s = Some v /\ (minInt64 <= v <= maxInt64)%Z)
      by now apply Hint.
    repeat split; try discriminate; try tauto; auto.
Qed.

(** Examples of the probe; a literal beyond the [float64] range is
    refused by [ParseFloat] too, and probes as String. *)
Example probe_examples :
  map inferProbableTypeFromString
    ["1"; "-12"; "+7"; "9.99"; "10"; "1e5"; "NaN"; "-Inf"; "0x1p-2";
     "apple"; ""; " 1"; "1e400"]%string
  = [FieldTypeInteger; FieldTypeInteger; FieldTypeInteger; FieldTypeFloat;
     FieldTypeInteger; FieldTypeFloat; FieldTypeFloat; FieldTypeFloat; FieldTypeFloat;
     FieldTypeString; FieldTypeString; FieldTypeString; FieldTypeString].
Proof. vm_compute. reflexivity. Qed.

(** Whenever [Import] returns after the header was read, with success
    or with a parse error in mid-stream, the field names and the field
    types have the header's length, and so has every row the call
    appended. *)
Lemma Import_appends_header_length_rows (c : DataSetCache) (fs : os.FileSystem)
    (URI : string) (header : list string) (input : csv.File)
    (e : option error) (c' : DataSetCache) :
  fs URI = inl (csv.Fields header :: input) ->
  Import c fs URI = Returns e c' ->
  FieldNames c' = header /\
  length (FieldTypes c') = length header /\
  exists rows,
    FieldData c' = FieldData c ++ rows /\
    Forall (fun row => length row = length header) rows.
Proof.
  intros Hfs H.
  apply Import_returns_inv in H as [(_ & _ & Hno)|H]; [now destruct (Hno header input)|].
  destruct H as (header' & good & tail & Hfs' & Hgood & -> & _).
  rewrite Hfs in Hfs'. injection Hfs' as <- _.
  split; [reflexivity|]. split; [|eauto].
  simpl. rewrite length_widenTypes; [apply length_replicate|].
  now rewrite length_replicate.
Qed.

(** C8.  After a call of [Import] that got past the header, whether it
    succeeded or was aborted by a parse error in mid-stream, the field
    names and the field types have the same length, the number of
    columns of the header, and every row the call appended to the row
    store has that length; when the row store was empty before the
    call, as that of a new cache is, every row of the store has it. *)
Theorem lengths_agree (c : DataSetCache) (fs : os.FileSystem) (URI : string)
    (header : list string) (input : csv.File)
    (e : option error) (c' : DataSetCache) :
  fs URI = inl (csv.Fields header :: input) ->
  Import c fs URI = Returns e c' ->
  (e = None \/ exists cause, e = Some (CouldNotParse URI cause)) /\
  length (FieldNames c') = length (FieldTypes c') /\
  length (FieldNames c') = length header /\
  (exists rows,
     FieldData c' = FieldData c ++ rows /\
     Forall (fun row => length row = length (FieldNames c')) rows) /\
  (FieldData c = [] ->
   Forall (fun row => length row = length (FieldNames c')) (FieldData c')).
Proof.
  intros Hfs H.
  destruct (Import_appends_header_length_rows _ _ _ _ _ _ _ Hfs H)
    as (Hnames & Htypes & rows & Hdata & Hrows).
  split.
  - apply Import_returns_inv in H as [(_ & _ & Hno)|H];
      [now destruct (Hno header input)|].
    destruct H as (header' & good & tail & _ & _ & _ & He).
    destruct e as [err|]; [right|now left].
    destruct He as (_ & cause & ->). now exists cause.
  - rewrite Hnames, Htypes.
    split; [reflexivity|]. split; [reflexivity|]. split.
    + exists rows. split; assumption.
    + intros Hempty. rewrite Hdata, Hempty. exact Hrows.
Qed.

Lemma lengths_agree_witness :
  let c' := mkDataSetCache ["a"; "b"]%string [FieldTypeFloat; FieldTypeString] goodRows in
  let e := Some (CouldNotParse "malformed.csv" (csv.ParseError csv.ErrQuote)) in
  let input := map csv.Fields goodRows
                 ++ [csv.Malformed csv.ErrQuote; csv.Fields ["3"; "z"]%string] in
  exampleFS "malformed.csv"%string = inl (csv.Fields ["a"; "b"]%string :: input) /\
  Import New exampleFS "malformed.csv" = Returns e c' /\
  (e = None \/ exists cause, e = Some (CouldNotParse "malformed.csv" cause)) /\
  length (FieldNames c') = length (FieldTypes c') /\
  length (FieldNames c') = length ["a"; "b"]%string /\
  (exists rows,
     FieldData c' = FieldData New ++ rows /\
     Forall (fun row => length row = length (FieldNames c')) rows) /\
  (FieldData New = [] ->
   Forall (fun row => length row = length (FieldNames c')) (FieldData c')).
Proof.
  cbv zeta. split; [reflexivity|]. split; [vm_compute; reflexivity|].
  apply (lengths_agree New exampleFS "malformed.csv" ["a"; "b"]%string
           (map csv.Fields goodRows
              ++ [csv.Malformed csv.ErrQuote; csv.Fields ["3"; "z"]%string])
           (Some (CouldNotParse "malformed.csv" (csv.ParseError csv.ErrQuote)))
           (mkDataSetCache ["a"; "b"]%string [FieldTypeFloat; FieldTypeString] goodRows));
    [reflexivity|vm_compute; reflexivity].
Defined.

(** On a cache that held rows before the call the rows of the store need
    not have the length of the field names: after a source of three
    columns, a source of one column leaves one field name over rows of
    three, three and one cells. *)
Lemma lengths_on_reused_cache_counterexample :
  let c1 := mkDataSetCache salesHeader
              [FieldTypeInteger; FieldTypeFloat; FieldTypeString] salesRows in
  let c2 := mkDataSetCache ["a"%string] [FieldTypeString]
              (salesRows ++ [["abc"%string]]) in
  Import New exampleFS "sales.csv" = Returns None c1 /\
  Import c1 exampleFS "abc.csv" = Returns None c2 /\
  length (FieldNames c2) = 1 /\
  map (fun row : list string => length row) (FieldData c2) = [3; 3; 1] /\
  ~ Forall (fun row => length row = length (FieldNames c2)) (FieldData c2).
Proof.
  cbv zeta. split; [vm_compute; reflexivity|]. split; [vm_compute; reflexivity|].
  split; [reflexivity|]. split; [reflexivity|].
  intros H. apply Forall_cons in H as [H _]. discriminate H.
Qed.

(** On a new cache, however the call returns, the three lengths agree
    for the whole row store. *)
Lemma lengths_agree_New (fs : os.FileSystem) (URI : string)
    (e : option error) (c' : DataSetCache) :
  Import New fs URI = Returns e c' ->
  length (FieldNames c') = length (FieldTypes c') /\
  Forall (fun row => length row = length (FieldNames c')) (FieldData c').
Proof.
  intros H.
  destruct (Import_returns_inv _ _ _ _ _ H) as [(-> & _)|Hread].
  - split; [reflexivity|constructor].
  - destruct Hread as (header & good & tail & Hfs & _).
    destruct (Import_appends_header_length_rows _ _ _ _ _ _ _ Hfs H)
      as (-> & -> & rows & -> & Hrows).
    split; [reflexivity|exact Hrows].
Qed.

Lemma maxFloat64_below_threshold : (maxFloat64 < 2 ^ 1024 - 2 ^ 970)%Z.
Proof. unfold maxFloat64. vm_compute. reflexivity. Qed.

(** C9.  A base-10 integer literal whose value lies outside the signed
    64-bit range and within the finite [float64] range probes as Float:
    [ParseInt] fails on it with the range error and [ParseFloat]
    accepts it. *)
Theorem big_integer_literal_probes_Float (s : string) (v : Z) :
  intLiteral s = Some v ->
  (v < minInt64 \/ maxInt64 < v)%Z ->
  (Z.abs v <= maxFloat64)%Z ->
  inferProbableTypeFromString s = FieldTypeFloat.
Proof.
  intros Hlit Hout Hfin.
  unfold inferProbableTypeFromString.
  pose proof (ParseInt_spec s) as Hint. rewrite Hlit in Hint.
  destruct (Z.leb_spec minInt64 v); destruct (Z.leb_spec v maxInt64);
    simpl in Hint; try lia;
    (destruct (strconv.ParseInt s 10 64) as [n err]; simpl in Hint; subst err;
     rewrite (ParseFloat_intLiteral s v Hlit);
     [reflexivity|pose proof maxFloat64_below_threshold; lia]).
Qed.

Lemma big_integer_literal_probes_Float_witness :
  intLiteral "9223372036854775808" = Some 9223372036854775808%Z /\
  (9223372036854775808 < minInt64 \/ maxInt64 < 9223372036854775808)%Z /\
  (Z.abs 9223372036854775808 <= maxFloat64)%Z /\
  inferProbableTypeFromString "9223372036854775808" = FieldTypeFloat.
Proof.
  split; [vm_compute; reflexivity|].
  split; [right; vm_compute; reflexivity|].
  split; [vm_compute; discriminate|].
  apply (big_integer_literal_probes_Float "9223372036854775808" 9223372036854775808%Z);
    [vm_compute; reflexivity|right; vm_compute; reflexivity|vm_compute; discriminate].
Defined.

(** C10.  A second successful [Import] on the same cache takes the
    field names and the field types from the second source alone, as on
    a new cache, and appends its rows after those of the first: the row
    store holds the rows of both sources, the first ones first. *)
Theorem second_import_appends (c0 : DataSetCache) (fs1 fs2 : os.FileSystem)
    (URI1 URI2 : string) (c1 c2 : DataSetCache) :
  Import c0 fs1 URI1 = Returns None c1 ->
  Import c1 fs2 URI2 = Returns None c2 ->
  exists header1 rows1 header2 rows2,
    fs1 URI1 = inl (csv.Fields header1 :: (csv.Fields <$> rows1)) /\
    fs2 URI2 = inl (csv.Fields header2 :: (csv.Fields <$> rows2)) /\
    FieldData c1 = FieldData c0 ++ rows1 /\
    FieldData c2 = FieldData c0 ++ rows1 ++ rows2 /\
    FieldNames c2 = header2 /\
    Import New fs2 URI2 =
      Returns None (mkDataSetCache (FieldNames c2) (FieldTypes c2) rows2).
Proof.
  intros H1 H2.
  destruct (Import_success_inv _ _ _ _ H1) as (header1 & rows1 & Hfs1 & Hrows1 & ->).
  destruct (Import_success_inv _ _ _ _ H2) as (header2 & rows2 & Hfs2 & Hrows2 & ->).
  exists header1, rows1, header2, rows2.
  split; [exact Hfs1|]. split; [exact Hfs2|].
  split; [reflexivity|]. split; [simpl; now rewrite app_assoc|].
  split; [reflexivity|].
  now rewrite (Import_success New fs2 URI2 header2 rows2 Hfs2 Hrows2).
Qed.

Lemma second_import_appends_witness :
  let c1 := mkDataSetCache salesHeader
              [FieldTypeInteger; FieldTypeFloat; FieldTypeString] salesRows in
  let c2 := mkDataSetCache ["a"%string] [FieldTypeString]
              (salesRows ++ [["abc"%string]]) in
  Import New exampleFS "sales.csv" = Returns None c1 /\
  Import c1 exampleFS "abc.csv" = Returns None c2 /\
  exists header1 rows1 header2 rows2,
    exampleFS "sales.csv"%string = inl (csv.Fields header1 :: (csv.Fields <$> rows1)) /\
    exampleFS "abc.csv"%string = inl (csv.Fields header2 :: (csv.Fields <$> rows2)) /\
    FieldData c1 = FieldData New ++ rows1 /\
    FieldData c2 = FieldData New ++ rows1 ++ rows2 /\
    FieldNames c2 = header2 /\
    Import New exampleFS "abc.csv" =
      Returns None (mkDataSetCache (FieldNames c2) (FieldTypes c2) rows2).
Proof.
  cbv zeta. split; [vm_compute; reflexivity|]. split; [vm_compute; reflexivity|].
  apply (second_import_appends New exampleFS exampleFS "sales.csv" "abc.csv"
           (mkDataSetCache salesHeader
              [FieldTypeInteger; FieldTypeFloat; FieldTypeString] salesRows)
           (mkDataSetCache ["a"%string] [FieldTypeString]
              (salesRows ++ [["abc"%string]])));
    vm_compute; reflexivity.
Defined.

(** ** Further properties of the row loop and of [Import] *)

(** X1.  The body of the row loop on one record.  It panics exactly
    when the record has more cells than there are field types.
    Otherwise it leaves the field names alone, appends the record as it
    is, keeps the number of field types, and joins the probe of each
    cell into the type of its field; the types beyond a shorter record
    stay as they were. *)
Theorem row_body_effect (c : DataSetCache) (record : list string) :
  (appendRecord c record = None <-> length (FieldTypes c) < length record) /\
  forall c', appendRecord c record = Some c' ->
    FieldNames c' = FieldNames c /\
    FieldData c' = FieldData c ++ [record] /\
    length (FieldTypes c') = length (FieldTypes c) /\
    forall column t, FieldTypes c !! column = Some t ->
      FieldTypes c' !! column =
        Some (match record !! column with
              | Some v => join t (inferProbableTypeFromString v)
              | None => t
              end).
Proof.
  rewrite appendRecord_spec. case_decide as Hlen.
  - split; [split; [discriminate|lia]|].
    intros c' [= <-]. simpl.
    split; [reflexivity|]. split; [reflexivity|]. split.
    + rewrite length_app, length_zip_with, length_fmap, length_drop. lia.
    + intros column t Ht.
      destruct (record !! column) as [v|] eqn:Hv.
      * rewrite lookup_app_l
          by (rewrite length_zip_with, length_fmap;
              apply lookup_lt_Some in Hv, Ht; lia).
        now rewrite lookup_zip_with, Ht, list_lookup_fmap, Hv.
      * apply lookup_ge_None in Hv.
        rewrite lookup_app_r
          by (rewrite length_zip_with, length_fmap; lia).
        rewrite length_zip_with, length_fmap, lookup_drop, <- Ht.
        f_equal. lia.
  - split; [split; [intros _; lia|reflexivity]|discriminate].
Qed.

Lemma importRows_returns (URI : string) (input : csv.File) :
  forall c : DataSetCache,
    FieldTypes c <> [] ->
    exists e c', importRows URI (Z.of_nat (length (FieldTypes c))) input c = Returns e c'.
Proof.
  induction input as [|x input IH]; intros c Hne; [simpl; eauto|].
  destruct x as [record|cause].
  - rewrite importRows_Fields. case_decide as Hrow.
    + assert (Hlen : length (FieldTypes (extend c [record])) = length (FieldTypes c))
        by (apply length_types_extend; constructor; [exact Hrow|constructor]).
      rewrite <- Hlen. apply IH.
      intros Hnil. rewrite Hnil in Hlen.
      destruct (FieldTypes c); [now apply Hne|discriminate].
    + case_decide; [destruct (FieldTypes c); [now destruct Hne|discriminate]|eauto].
  - rewrite importRows_Malformed. eauto.
Qed.

(** When the header has at least one column [Import] returns. *)
Lemma Import_never_panics (c : DataSetCache) (fs : os.FileSystem) (URI : string) :
  (forall input, fs URI <> inl (csv.Fields [] :: input)) ->
  exists e c', Import c fs URI = Returns e c'.
Proof.
  intros Hheader.
  destruct (fs URI) as [[|[header|cause] input]|cause] eqn:Hfs.
  - rewrite (proj1 (proj2 (Import_early c fs URI)) Hfs). eauto.
  - rewrite (Import_header c fs URI header input Hfs).
    set (c0 := mkDataSetCache header (replicate (length header) FieldTypeInteger)
                 (FieldData c)).
    assert (Hlen : length (FieldTypes c0) = length header) by apply length_replicate.
    rewrite <- Hlen. apply importRows_returns.
    intros Hnil. rewrite Hnil in Hlen.
    destruct header; [now destruct (Hheader input)|discriminate].
  - rewrite (proj2 (proj2 (Import_early c fs URI)) _ _ Hfs). eauto.
  - rewrite (proj1 (Import_early c fs URI) _ Hfs). eauto.
Qed.

(** The field types a successful [Import] leaves are never Unknown. *)
Lemma Import_types_known (c : DataSetCache) (fs : os.FileSystem) (URI : string)
    (c' : DataSetCache) :
  Import c fs URI = Returns None c' ->
  Forall (fun t => t <> FieldTypeUnknown) (FieldTypes c').
Proof.
  intros H.
  destruct (Import_success_inv _ _ _ _ H) as (header & rows & Hfs & Hrows & ->).
  apply Forall_lookup. intros column t Ht. simpl in Ht.
  assert (Hcol : column < length header).
  { apply lookup_lt_Some in Ht.
    rewrite length_widenTypes, length_replicate in Ht; [exact Ht|].
    now rewrite length_replicate. }
  rewrite (widenTypes_lookup rows _ column FieldTypeInteger) in Ht;
    [|now rewrite length_replicate|now apply lookup_replicate_2].
  injection Ht as <-. apply fold_join_mostSpecific.
Qed.

(** *** The log *)

Lemma logFields_spec (names : list string) :
  forall (i : nat) (types : list FieldType),
    i + length names <= length types ->
    logFields i names types = (zip_with fieldMessage names (drop i types), true).
Proof.
  induction names as [|v names IH]; intros i types Hlen; [reflexivity|].
  simpl in Hlen. cbn [logFields].
  destruct (lookup_lt_is_Some_2 types i ltac:(lia)) as [t Ht].
  rewrite Ht, (IH (S i) types) by lia.
  now rewrite (drop_S types t i Ht).
Qed.

(** [ImportLogged] ends as [Import] does, and logs the start; after a
    success it also logs the length of the row store and a message for
    each field, and after anything else nothing more. *)
Lemma ImportLogged_spec (c : DataSetCache) (fs : os.FileSystem) (URI : string) :
  ImportLogged c fs URI =
    (Import c fs URI,
     String.append "importing " URI ::
       match Import c fs URI with
       | Returns None c' =>
           [String.append "finished processing CSV, "
              (String.append (formatInt (length (FieldData c'))) " rows processed");
            "fields: "%string]
           ++ zip_with fieldMessage (FieldNames c') (FieldTypes c')
       | _ => []
       end).
Proof.
  unfold ImportLogged, Import.
  destruct (fs URI) as [[|[header|cause] input]|cause]; try reflexivity.
  cbn [csv.Read csv.NewReader csv.input csv.FieldsPerRecord csv.readRecord].
  change (if 0 >? 0 then _ else _)%Z
    with (header, @None csv.error, Z.of_nat (length header)).
  cbv iota beta zeta. cbn [FieldNames FieldTypes FieldData csv.input csv.FieldsPerRecord].
  rewrite seedFieldTypes_Integer.
  set (c0 := mkDataSetCache header (replicate (length header) FieldTypeInteger)
               (FieldData c)).
  assert (Hlen : length (FieldTypes c0) = length header) by apply length_replicate.
  rewrite <- Hlen.
  destruct (importRows URI (Z.of_nat (length (FieldTypes c0))) input c0)
    as [[e|] c1|] eqn:Hrun; try reflexivity.
  apply importRows_inv in Hrun as (good & tail & _ & Hgood & -> & _).
  rewrite logFields_spec.
  - rewrite drop_0. reflexivity.
  - simpl. rewrite length_widenTypes by exact Hgood.
    simpl. rewrite length_replicate. lia.
Qed.

(** X2.  When the header has at least one column, as every record of
    the CSV reader has, [Import] returns, with its log or without: no
    index of the row loop or of the loop that logs the fields is ever
    out of range, whatever the source holds after the header. *)
Theorem Import_returns (c : DataSetCache) (fs : os.FileSystem) (URI : string) :
  (forall input, fs URI <> inl (csv.Fields [] :: input)) ->
  exists e c',
    Import c fs URI = Returns e c' /\
    fst (ImportLogged c fs URI) = Returns e c'.
Proof.
  intros Hheader.
  destruct (Import_never_panics c fs URI Hheader) as (e & c' & H).
  exists e, c'. split; [exact H|].
  now rewrite ImportLogged_spec.
Qed.

Lemma Import_returns_witness :
  (forall input, exampleFS "malformed.csv"%string <> inl (csv.Fields [] :: input)) /\
  exists e c',
    Import New exampleFS "malformed.csv" = Returns e c' /\
    fst (ImportLogged New exampleFS "malformed.csv") = Returns e c'.
Proof.
  split; [intros input; vm_compute; discriminate|].
  apply (Import_returns New exampleFS "malformed.csv").
  intros input; vm_compute; discriminate.
Defined.

(** X3.  A header that fails to lex makes [Import] return the parse
    error, naming the resource, with the cache as it was; only the
    message of the start has been logged. *)
Theorem malformed_header_leaves_cache_untouched (c : DataSetCache)
    (fs : os.FileSystem) (URI : string) (cause : csv.LexError) (input : csv.File) :
  fs URI = inl (csv.Malformed cause :: input) ->
  ImportLogged c fs URI =
    (Returns (Some (CouldNotParse URI (csv.ParseError cause))) c,
     [String.append "importing " URI]) /\
  Import c fs URI = Returns (Some (CouldNotParse URI (csv.ParseError cause))) c.
Proof.
  intros Hfs. unfold ImportLogged, Import. rewrite Hfs. split; reflexivity.
Qed.

Lemma malformed_header_leaves_cache_untouched_witness :
  let fs : os.FileSystem :=
    fun _ => inl [csv.Malformed csv.ErrBareQuote; csv.Fields ["1"%string]] in
  fs "bad.csv"%string = inl [csv.Malformed csv.ErrBareQuote; csv.Fields ["1"%string]] /\
  ImportLogged New fs "bad.csv" =
    (Returns (Some (CouldNotParse "bad.csv" (csv.ParseError csv.ErrBareQuote))) New,
     [String.append "importing " "bad.csv"]) /\
  Import New fs "bad.csv"
    = Returns (Some (CouldNotParse "bad.csv" (csv.ParseError csv.ErrBareQuote))) New.
Proof.
  cbv zeta. split; [reflexivity|].
  apply (malformed_header_leaves_cache_untouched New
           (fun _ => inl [csv.Malformed csv.ErrBareQuote; csv.Fields ["1"%string]])
           "bad.csv" csv.ErrBareQuote [csv.Fields ["1"%string]]).
  reflexivity.
Defined.

(** X4.  A data row with another number of fields than the header, after
    rows of the right length, is refused by the reader: [Import]
    returns the field-count error, the row is not appended, the rows
    before it are kept, and the field types are those the rows before
    it gave. *)
Theorem wrong_field_count_stops_import (c : DataSetCache) (fs : os.FileSystem)
    (URI : string) (header : list string) (good : list (list string))
    (bad : list string) (rest : csv.File) :
  fs URI = inl (csv.Fields header :: (csv.Fields <$> good) ++ csv.Fields bad :: rest) ->
  Forall (fun row => length row = length header) good ->
  header <> [] ->
  length bad <> length header ->
  Import c fs URI =
    Returns (Some (CouldNotParse URI csv.ErrFieldCount))
      (mkDataSetCache header
         (widenTypes (replicate (length header) FieldTypeInteger) good)
         (FieldData c ++ good)).
Proof.
  intros Hfs Hgood Hne Hbad.
  rewrite (Import_rows c fs URI header good _ Hfs Hgood).
  set (c0 := mkDataSetCache header (replicate (length header) FieldTypeInteger)
               (FieldData c)).
  assert (Hlen : length (FieldTypes (extend c0 good)) = length header).
  { rewrite length_types_extend; [apply length_replicate|].
    simpl. now rewrite length_replicate. }
  rewrite <- Hlen, importRows_Fields, Hlen.
  case_decide; [contradiction|].
  case_decide; [destruct header; [contradiction|discriminate]|reflexivity].
Qed.

Lemma wrong_field_count_stops_import_witness :
  let fs : os.FileSystem :=
    fun _ => inl [csv.Fields ["a"; "b"]; csv.Fields ["1"; "2.5"];
                  csv.Fields ["x"]; csv.Fields ["3"; "4"]]%string in
  fs "ragged.csv"%string
    = inl (csv.Fields ["a"; "b"]%string :: (csv.Fields <$> [["1"; "2.5"]%string])
             ++ csv.Fields ["x"%string] :: [csv.Fields ["3"; "4"]%string]) /\
  Import New fs "ragged.csv" =
    Returns (Some (CouldNotParse "ragged.csv" csv.ErrFieldCount))
      (mkDataSetCache ["a"; "b"]%string [FieldTypeInteger; FieldTypeFloat]
         [["1"; "2.5"]%string]).
Proof.
  cbv zeta. split; [reflexivity|].
  apply (wrong_field_count_stops_import New
           (fun _ => inl [csv.Fields ["a"; "b"]; csv.Fields ["1"; "2.5"];
                          csv.Fields ["x"]; csv.Fields ["3"; "4"]]%string)
           "ragged.csv" ["a"; "b"]%string [["1"; "2.5"]%string] ["x"%string]
           [csv.Fields ["3"; "4"]%string]);
    [reflexivity|repeat constructor|discriminate|discriminate].
Defined.

(** *** The type of a column, read off its cells *)

Lemma join_comm (a b : FieldType) : join a b = join b a.
Proof. destruct a, b; reflexivity. Qed.

Lemma join_assoc (a b c : FieldType) : join (join a b) c = join a (join b c).
Proof. destruct a, b, c; reflexivity. Qed.

Lemma fold_join_kinds (l : list FieldType) :
  forall t0 : FieldType,
    t0 <> FieldTypeUnknown ->
    Forall (fun x => x <> FieldTypeUnknown) l ->
    (fold_left join l t0 = FieldTypeInteger <->
       t0 = FieldTypeInteger /\ Forall (fun x => x = FieldTypeInteger) l) /\
    (fold_left join l t0 = FieldTypeString <->
       t0 = FieldTypeString \/ FieldTypeString ∈ l) /\
    (fold_left join l t0 = FieldTypeFloat <->
       (t0 = FieldTypeFloat \/ FieldTypeFloat ∈ l) /\
       t0 <> FieldTypeString /\ FieldTypeString ∉ l).
Proof.
  induction l as [|x l IH]; intros t0 Ht0 Hl; simpl.
  - rewrite !elem_of_nil, Forall_nil.
    destruct t0; try congruence; repeat split; try tauto; try congruence;
      intros; try (intuition congruence).
  - apply Forall_cons in Hl as [Hx Hl].
    destruct (IH (join t0 x) (join_not_unknown t0 x Ht0) Hl) as (HI & HS & HF).
    rewrite HI, HS, HF, Forall_cons, !elem_of_cons.
    destruct t0, x; try congruence; cbn -[elem_of];
      repeat split; intros; try discriminate;
      try (intuition (congruence || discriminate)).
Qed.

(** X5.  After a successful [Import], a field is Integer exactly when
    every cell of its column probes as Integer, String exactly when
    some cell probes as String, and Float exactly when some cell probes
    as Float and none as String. *)
Theorem field_type_by_cells (c : DataSetCache) (fs : os.FileSystem) (URI : string)
    (c' : DataSetCache) :
  Import c fs URI = Returns None c' ->
  exists header rows,
    fs URI = inl (csv.Fields header :: (csv.Fields <$> rows)) /\
    forall column t,
      FieldTypes c' !! column = Some t ->
      let probes := inferProbableTypeFromString <$> columnCells column rows in
      (t = FieldTypeInteger <-> Forall (fun p => p = FieldTypeInteger) probes) /\
      (t = FieldTypeString <-> FieldTypeString ∈ probes) /\
      (t = FieldTypeFloat <-> FieldTypeFloat ∈ probes /\ FieldTypeString ∉ probes).
Proof.
  intros H.
  destruct (Import_success_inv _ _ _ _ H) as (header & rows & Hfs & Hrows & ->).
  exists header, rows. split; [exact Hfs|].
  intros column t Ht probes. simpl in Ht.
  assert (Hcol : column < length header).
  { apply lookup_lt_Some in Ht.
    rewrite length_widenTypes, length_replicate in Ht; [exact Ht|].
    now rewrite length_replicate. }
  rewrite (widenTypes_lookup rows _ column FieldTypeInteger) in Ht;
    [|now rewrite length_replicate|now apply lookup_replicate_2].
  injection Ht as <-. fold probes.
  destruct (fold_join_kinds probes FieldTypeInteger ltac:(discriminate))
    as (HI & HS & HF).
  { unfold probes. apply Forall_fmap, Forall_forall. intros v _.
    apply infer_not_unknown. }
  rewrite HI, HS, HF. repeat split; intros; try (intuition (congruence || discriminate)).
Qed.

Lemma field_type_by_cells_witness :
  let c' := mkDataSetCache salesHeader
              [FieldTypeInteger; FieldTypeFloat; FieldTypeString] salesRows in
  Import New exampleFS "sales.csv" = Returns None c' /\
  exists header rows,
    exampleFS "sales.csv"%string = inl (csv.Fields header :: (csv.Fields <$> rows)) /\
    forall column t,
      FieldTypes c' !! column = Some t ->
      let probes := inferProbableTypeFromString <$> columnCells column rows in
      (t = FieldTypeInteger <-> Forall (fun p => p = FieldTypeInteger) probes) /\
      (t = FieldTypeString <-> FieldTypeString ∈ probes) /\
      (t = FieldTypeFloat <-> FieldTypeFloat ∈ probes /\ FieldTypeString ∉ probes).
Proof.
  cbv zeta. split; [vm_compute; reflexivity|].
  apply (field_type_by_cells New exampleFS "sales.csv"
           (mkDataSetCache salesHeader
              [FieldTypeInteger; FieldTypeFloat; FieldTypeString] salesRows)).
  vm_compute. reflexivity.
Defined.

(** *** The order of the rows *)

Lemma zip_with_join_swap (types : list FieldType) (a b : list FieldType) :
  zip_with join (zip_with join types a) b = zip_with join (zip_with join types b) a.
Proof.
  apply list_eq. intros i. rewrite !lookup_zip_with.
  destruct (types !! i) as [t|]; [|reflexivity].
  destruct (a !! i) as [x|], (b !! i) as [y|]; simpl; try reflexivity.
  now rewrite !join_assoc, (join_comm x y).
Qed.

Lemma widenTypes_Permutation (rows rows' : list (list string)) :
  rows ≡ₚ rows' ->
  forall types : list FieldType, widenTypes types rows = widenTypes types rows'.
Proof.
  induction 1 as [|row rows rows' _ IH|row1 row2 rows|rows1 rows2 rows3 _ IH1 _ IH2];
    intros types.
  - reflexivity.
  - apply (IH (zip_with join types (inferProbableTypeFromString <$> row))).
  - unfold widenTypes; simpl. now rewrite zip_with_join_swap.
  - now rewrite IH1.
Qed.

Lemma fmap_Fields_inj (rows rows' : list (list string)) :
  csv.Fields <$> rows = csv.Fields <$> rows' -> rows = rows'.
Proof.
  revert rows'. induction rows as [|row rows IH]; intros [|row' rows'] H;
    try discriminate; [reflexivity|].
  injection H as -> H. f_equal. now apply IH.
Qed.

(** X6.  The field types do not depend on the order of the data rows:
    two sources with the same header and the same rows in another
    order are both imported, with the same field names and the same
    field types. *)
Theorem field_types_ignore_row_order (c1 c2 : DataSetCache) (fs1 fs2 : os.FileSystem)
    (URI1 URI2 : string) (header : list string) (rows rows' : list (list string))
    (c1' : DataSetCache) :
  fs1 URI1 = inl (csv.Fields header :: (csv.Fields <$> rows)) ->
  fs2 URI2 = inl (csv.Fields header :: (csv.Fields <$> rows')) ->
  rows ≡ₚ rows' ->
  Import c1 fs1 URI1 = Returns None c1' ->
  exists c2',
    Import c2 fs2 URI2 = Returns None c2' /\
    FieldNames c2' = FieldNames c1' /\
    FieldTypes c2' = FieldTypes c1'.
Proof.
  intros Hfs1 Hfs2 Hperm H1.
  destruct (Import_success_inv _ _ _ _ H1) as (h & r & Hfs & Hrows & ->).
  rewrite Hfs1 in Hfs. injection Hfs as <- Hr.
  apply fmap_Fields_inj in Hr. subst r.
  assert (Hrows' : Forall (fun row => length row = length header) rows').
  { apply Forall_forall. intros row Hrow. rewrite <- Hperm in Hrow.
    revert row Hrow. now apply Forall_forall. }
  eexists. split; [apply (Import_success c2 fs2 URI2 header rows' Hfs2 Hrows')|].
  simpl. split; [reflexivity|].
  symmetry. now apply widenTypes_Permutation.
Qed.

Lemma field_types_ignore_row_order_witness :
  let fs : os.FileSystem :=
    fun _ => inl (csv.Fields salesHeader :: (csv.Fields <$> reverse salesRows)) in
  let c1' := mkDataSetCache salesHeader
               [FieldTypeInteger; FieldTypeFloat; FieldTypeString] salesRows in
  salesRows ≡ₚ reverse salesRows /\
  Import New exampleFS "sales.csv" = Returns None c1' /\
  exists c2',
    Import New fs "reversed.csv" = Returns None c2' /\
    FieldNames c2' = FieldNames c1' /\
    FieldTypes c2' = FieldTypes c1'.
Proof.
  cbv zeta. split; [apply Permutation_swap|]. split; [vm_compute; reflexivity|].
  apply (field_types_ignore_row_order New New exampleFS
           (fun _ => inl (csv.Fields salesHeader :: (csv.Fields <$> reverse salesRows)))
           "sales.csv" "reversed.csv" salesHeader salesRows (reverse salesRows)
           (mkDataSetCache salesHeader
              [FieldTypeInteger; FieldTypeFloat; FieldTypeString] salesRows));
    [reflexivity|reflexivity|apply Permutation_swap|vm_compute; reflexivity].
Defined.

(** *** What the inferred type promises about the cells *)

Lemma probe_Integer_inv (s : string) :
  inferProbableTypeFromString s = FieldTypeInteger ->
  snd (strconv.ParseInt s 10 64) = None /\
  exists v, intLiteral s = Some v /\ (minInt64 <= v <= maxInt64)%Z.
Proof.
  unfold inferProbableTypeFromString. intros H.
  pose proof (ParseInt_spec s) as Hspec.
  destruct (strconv.ParseInt s 10 64) as [n [e|]] eqn:Hp.
  - destruct (strconv.ParseFloat s 10); discriminate.
  - split; [reflexivity|].
    destruct (intLiteral s) as [v|].
    + exists v. split; [reflexivity|].
      destruct (Z.leb_spec minInt64 v); destruct (Z.leb_spec v maxInt64);
        simpl in Hspec; try discriminate; lia.
    + destruct Hspec as [e He]. discriminate.
Qed.

Lemma probe_Float_inv (s : string) :
  inferProbableTypeFromString s = FieldTypeFloat -> strconv.ParseFloat s 10 = None.
Proof.
  unfold inferProbableTypeFromString.
  destruct (strconv.ParseInt s 10 64) as [n [e|]]; [|discriminate].
  destruct (strconv.ParseFloat s 10); [discriminate|reflexivity].
Qed.

Lemma int64_below_float_threshold (v : Z) :
  (minInt64 <= v <= maxInt64)%Z -> (Z.abs v < 2 ^ 1024 - 2 ^ 970)%Z.
Proof.
  intros Hv.
  assert (H : (2 ^ 63 < 2 ^ 1024 - 2 ^ 970)%Z) by (vm_compute; reflexivity).
  unfold minInt64, maxInt64 in Hv. lia.
Qed.

Lemma Integer_probe_parses_as_Float (s : string) :
  snd (strconv.ParseInt s 10 64) = None -> strconv.ParseFloat s 10 = None.
Proof.
  intros H.
  assert (Hp : inferProbableTypeFromString s = FieldTypeInteger).
  { unfold inferProbableTypeFromString.
    destruct (strconv.ParseInt s 10 64) as [n e]. simpl in H. now subst e. }
  destruct (probe_Integer_inv s Hp) as (_ & v & Hv & Hrange).
  apply (ParseFloat_intLiteral s v Hv), int64_below_float_threshold, Hrange.
Qed.

(** X7.  A cell that probes as Integer is accepted by [ParseInt] and
    by [ParseFloat] alike: it would have probed as Float had the
    integer parse not come first, which is why a Float field can keep
    its type over such a cell. *)
Theorem Integer_cells_parse_as_Float (s : string) :
  inferProbableTypeFromString s = FieldTypeInteger ->
  snd (strconv.ParseInt s 10 64) = None /\ strconv.ParseFloat s 10 = None.
Proof.
  intros Hp. destruct (probe_Integer_inv s Hp) as (Hint & _).
  split; [exact Hint|]. now apply Integer_probe_parses_as_Float.
Qed.

Lemma Integer_cells_parse_as_Float_witness :
  inferProbableTypeFromString "-42" = FieldTypeInteger /\
  snd (strconv.ParseInt "-42" 10 64) = None /\ strconv.ParseFloat "-42" 10 = None.
Proof.
  split; [vm_compute; reflexivity|].
  apply (Integer_cells_parse_as_Float "-42"). vm_compute. reflexivity.
Defined.

(** X8.  The inferred type is sound for the parsers: after a successful
    [Import], every cell of an Integer field is accepted by
    [ParseInt(cell, 10, 64)], and every cell of a Float field by
    [ParseFloat(cell, 10)]. *)
Theorem cells_parse_as_their_field_type (c : DataSetCache) (fs : os.FileSystem)
    (URI : string) (c' : DataSetCache) :
  Import c fs URI = Returns None c' ->
  exists header rows,
    fs URI = inl (csv.Fields header :: (csv.Fields <$> rows)) /\
    FieldData c' = FieldData c ++ rows /\
    forall column cell,
      cell ∈ columnCells column rows ->
      (FieldTypes c' !! column = Some FieldTypeInteger ->
         snd (strconv.ParseInt cell 10 64) = None) /\
      (FieldTypes c' !! column = Some FieldTypeFloat ->
         strconv.ParseFloat cell 10 = None).
Proof.
  intros H.
  destruct (Import_success_inv _ _ _ _ H) as (header & rows & Hfs & Hrows & ->).
  exists header, rows. split; [exact Hfs|]. split; [reflexivity|].
  intros column cell Hcell. simpl.
  assert (Hw : forall t,
             widenTypes (replicate (length header) FieldTypeInteger) rows !! column = Some t ->
             widens (inferProbableTypeFromString cell) t).
  { intros t Ht.
    assert (Hcol : column < length header).
    { apply lookup_lt_Some in Ht.
      rewrite length_widenTypes, length_replicate in Ht; [exact Ht|].
      now rewrite length_replicate. }
    rewrite (widenTypes_lookup rows _ column FieldTypeInteger) in Ht;
      [|now rewrite length_replicate|now apply lookup_replicate_2].
    injection Ht as <-.
    destruct (fold_join_least (columnCells column rows) FieldTypeInteger)
      as (_ & Hall & _).
    rewrite Forall_forall in Hall. now apply Hall. }
  split; intros Ht; apply Hw in Ht; unfold widens in Ht;
    destruct (infer_cases cell) as [Hc|[Hc|Hc]]; rewrite Hc in Ht; simpl in Ht;
    try lia.
  - now apply probe_Integer_inv.
  - apply Integer_probe_parses_as_Float. now apply probe_Integer_inv.
  - now apply probe_Float_inv.
Qed.

Lemma cells_parse_as_their_field_type_witness :
  let c' := mkDataSetCache salesHeader
              [FieldTypeInteger; FieldTypeFloat; FieldTypeString] salesRows in
  Import New exampleFS "sales.csv" = Returns None c' /\
  exists header rows,
    exampleFS "sales.csv"%string = inl (csv.Fields header :: (csv.Fields <$> rows)) /\
    FieldData c' = FieldData New ++ rows /\
    forall column cell,
      cell ∈ columnCells column rows ->
      (FieldTypes c' !! column = Some FieldTypeInteger ->
         snd (strconv.ParseInt cell 10 64) = None) /\
      (FieldTypes c' !! column = Some FieldTypeFloat ->
         strconv.ParseFloat cell 10 = None).
Proof.
  cbv zeta. split; [vm_compute; reflexivity|].
  apply (cells_parse_as_their_field_type New exampleFS "sales.csv"
           (mkDataSetCache salesHeader
              [FieldTypeInteger; FieldTypeFloat; FieldTypeString] salesRows)).
  vm_compute. reflexivity.
Defined.

(** *** What is logged *)

(** The tags of the field types are pairwise distinct: a logged tag
    tells the type, and [FIELD_TYPE_UNKNOWN] stands for Unknown alone. *)
Lemma fieldTypeString_inj (t t' : FieldType) :
  fieldTypeString t = fieldTypeString t' <-> t = t'.
Proof.
  split; [|now intros ->].
  destruct t, t'; simpl; intros H; try reflexivity; discriminate.
Qed.

(** X9.  The log of a successful [Import]: the start with the
    resource, the length of the whole row store (on a cache that held
    rows before, those are counted too), the heading, and one message
    for each field, in the header's order, with its name and the tag of
    its type; no field is logged as [FIELD_TYPE_UNKNOWN]. *)
Theorem log_of_successful_import (c : DataSetCache) (fs : os.FileSystem)
    (URI : string) (c' : DataSetCache) :
  Import c fs URI = Returns None c' ->
  ImportLogged c fs URI =
    (Returns None c',
     [String.append "importing " URI;
      String.append "finished processing CSV, "
        (String.append (formatInt (length (FieldData c'))) " rows processed");
      "fields: "%string]
     ++ zip_with fieldMessage (FieldNames c') (FieldTypes c')) /\
  length (zip_with fieldMessage (FieldNames c') (FieldTypes c'))
    = length (FieldNames c') /\
  Forall (fun t => fieldTypeString t <> "FIELD_TYPE_UNKNOWN"%string) (FieldTypes c').
Proof.
  intros H. split; [rewrite ImportLogged_spec, H; reflexivity|]. split.
  - destruct (Import_success_inv _ _ _ _ H) as (header & rows & _ & Hrows & ->).
    simpl. rewrite length_zip_with, length_widenTypes, length_replicate; [lia|].
    now rewrite length_replicate.
  - eapply Forall_impl; [exact (Import_types_known _ _ _ _ H)|].
    intros t Ht. destruct t; simpl; congruence || discriminate.
Qed.

Lemma log_of_successful_import_witness :
  let c' := mkDataSetCache salesHeader
              [FieldTypeInteger; FieldTypeFloat; FieldTypeString] salesRows in
  Import New exampleFS "sales.csv" = Returns None c' /\
  ImportLogged New exampleFS "sales.csv" =
    (Returns None c',
     ["importing sales.csv"; "finished processing CSV, 2 rows processed"; "fields: ";
      "   id: FIELD_TYPE_INTEGER"; "   price: FIELD_TYPE_FLOAT";
      "   name: FIELD_TYPE_STRING"]%string) /\
  length (zip_with fieldMessage (FieldNames c') (FieldTypes c'))
    = length (FieldNames c') /\
  Forall (fun t => fieldTypeString t <> "FIELD_TYPE_UNKNOWN"%string) (FieldTypes c').
Proof.
  cbv zeta. split; [vm_compute; reflexivity|].
  apply (log_of_successful_import New exampleFS "sales.csv"
           (mkDataSetCache salesHeader
              [FieldTypeInteger; FieldTypeFloat; FieldTypeString] salesRows)).
  vm_compute. reflexivity.
Defined.

(** X10.  When [Import] returns an error, whichever it is, the message
    of the start is all it has logged: the error is returned, never
    logged, and no row count or field is reported for the rows that
    stay in the cache. *)
Theorem log_of_failed_import (c : DataSetCache) (fs : os.FileSystem)
    (URI : string) (e : error) (c' : DataSetCache) :
  Import c fs URI = Returns (Some e) c' ->
  ImportLogged c fs URI = (Returns (Some e) c', [String.append "importing " URI]).
Proof.
  intros H. rewrite ImportLogged_spec, H. reflexivity.
Qed.

Lemma log_of_failed_import_witness :
  let e := CouldNotParse "malformed.csv" (csv.ParseError csv.ErrQuote) in
  let c' := mkDataSetCache ["a"; "b"]%string [FieldTypeFloat; FieldTypeString] goodRows in
  Import New exampleFS "malformed.csv" = Returns (Some e) c' /\
  ImportLogged New exampleFS "malformed.csv"
    = (Returns (Some e) c', ["importing malformed.csv"%string]).
Proof.
  cbv zeta. split; [vm_compute; reflexivity|].
  apply (log_of_failed_import New exampleFS "malformed.csv"
           (CouldNotParse "malformed.csv" (csv.ParseError csv.ErrQuote))
           (mkDataSetCache ["a"; "b"]%string [FieldTypeFloat; FieldTypeString] goodRows)).
  vm_compute. reflexivity.
Defined.

(** X11.  [main] drops the error of [Import]: when the header of its
    file has a column, or the file is missing, empty or malformed,
    [main] returns normally; and when the import failed, one message,
    the start, is all that was logged. *)
Theorem main_drops_the_error (fs : os.FileSystem) :
  (forall input,
     fs "data/5m_sales_records.csv"%string <> inl (csv.Fields [] :: input)) ->
  fst (main fs) = true /\
  forall e c',
    Import New fs "data/5m_sales_records.csv" = Returns (Some e) c' ->
    snd (main fs) = ["importing data/5m_sales_records.csv"%string].
Proof.
  intros Hheader. unfold main. cbv zeta. rewrite ImportLogged_spec.
  destruct (Import_never_panics New fs "data/5m_sales_records.csv" Hheader)
    as (e & c' & H).
  rewrite H. split; [reflexivity|].
  intros e' c'' [= -> ->]. reflexivity.
Qed.

Lemma main_drops_the_error_witness :
  (forall input,
     exampleFS "data/5m_sales_records.csv"%string <> inl (csv.Fields [] :: input)) /\
  fst (main exampleFS) = true /\
  forall e c',
    Import New exampleFS "data/5m_sales_records.csv" = Returns (Some e) c' ->
    snd (main exampleFS) = ["importing data/5m_sales_records.csv"%string].
Proof.
  split; [intros input; vm_compute; discriminate|].
  apply (main_drops_the_error exampleFS).
  intros input; vm_compute; discriminate.
Defined.

(** ** Which cells can be numbers *)

Local Open Scope Z_scope.

Lemma numericByte_digit (c : Z) : strconv.isDigit c = true -> numericByte c = true.
Proof. intros H. unfold numericByte. now rewrite H. Qed.

Lemma numericByte_letter (c : Z) :
  strconv.between (ch "a") (strconv.lower c) (ch "z") = true -> numericByte c = true.
Proof. intros H. unfold numericByte. rewrite H. now rewrite orb_true_r. Qed.

Lemma numericByte_lower (c p : Z) :
  strconv.lower c = p -> 97 <= p <= 122 -> numericByte c = true.
Proof.
  intros H Hp. apply numericByte_letter. rewrite H.
  unfold strconv.between. change (ch "a") with 97. change (ch "z") with 122.
  apply andb_true_iff. split; apply Z.leb_le; lia.
Qed.

Lemma numericByte_sign (c : Z) :
  (c =? ch "+") || (c =? ch "-") = true -> numericByte c = true.
Proof.
  intros H. unfold numericByte.
  apply orb_true_iff in H as [H|H]; rewrite H; now rewrite ?orb_true_r.
Qed.

(** The mantissa loop of [readFloat] reads numeric bytes only. *)
Lemma readMantissa_consumes (base : Z) (s : list Z) :
  forall (st st' : strconv.scan) (rest : list Z),
    strconv.readMantissa base s st = (st', rest) ->
    exists read, s = read ++ rest /\ Forall (fun c => numericByte c = true) read.
Proof.
  induction s as [|c s IH]; intros st st' rest H.
  - injection H as _ <-. exists []. split; [reflexivity|constructor].
  - cbn [strconv.readMantissa] in H.
    assert (Hstep : forall st0, strconv.readMantissa base s st0 = (st', rest) ->
              numericByte c = true ->
              exists read, c :: s = read ++ rest
                           /\ Forall (fun c => numericByte c = true) read).
    { intros st0 H0 Hc. destruct (IH _ _ _ H0) as (read & -> & Hread).
      exists (c :: read). split; [reflexivity|now constructor]. }
    assert (Hstop : (st, c :: s) = (st', rest) ->
              exists read, c :: s = read ++ rest
                           /\ Forall (fun c => numericByte c = true) read).
    { intros [= _ <-]. exists []. split; [reflexivity|constructor]. }
    destruct (c =? ch "_") eqn:Hu.
    { eapply Hstep; [exact H|]. unfold numericByte. rewrite Hu. now rewrite ?orb_true_r. }
    destruct (c =? ch ".") eqn:Hd.
    { destruct (strconv.sawdot st); [now apply Hstop|].
      eapply Hstep; [exact H|]. unfold numericByte. rewrite Hd. now rewrite ?orb_true_r. }
    destruct (strconv.isDigit c) eqn:Hc.
    { destruct ((c =? ch "0") && (strconv.nd st =? 0));
        (eapply Hstep; [exact H|now apply numericByte_digit]). }
    destruct ((base =? 16) && strconv.between (ch "a") (strconv.lower c) (ch "f")) eqn:Hx;
      [|now apply Hstop].
    eapply Hstep; [exact H|].
    apply andb_true_iff in Hx as [_ Hx]. unfold strconv.between in Hx.
    apply andb_true_iff in Hx as [Hlo Hhi]. apply Z.leb_le in Hlo, Hhi.
    apply (numericByte_lower c (strconv.lower c) eq_refl).
    change (ch "a") with 97 in Hlo. change (ch "f") with 102 in Hhi. lia.
Qed.

(** So does the digit loop of its exponent. *)
Lemma readExponent_consumes (s : list Z) :
  forall (e e' : Z) (us us' : bool) (rest : list Z),
    strconv.readExponent s e us = (e', us', rest) ->
    exists read, s = read ++ rest /\ Forall (fun c => numericByte c = true) read.
Proof.
  induction s as [|c s IH]; intros e e' us us' rest H.
  - injection H as _ _ <-. exists []. split; [reflexivity|constructor].
  - cbn [strconv.readExponent] in H.
    destruct (c =? ch "_") eqn:Hu.
    { destruct (IH _ _ _ _ _ H) as (read & -> & Hread).
      exists (c :: read). split; [reflexivity|]. constructor; [|exact Hread].
      unfold numericByte. rewrite Hu. now rewrite ?orb_true_r. }
    destruct (strconv.isDigit c) eqn:Hc.
    { destruct (IH _ _ _ _ _ H) as (read & -> & Hread).
      exists (c :: read). split; [reflexivity|].
      constructor; [now apply numericByte_digit|exact Hread]. }
    injection H as _ _ <-. exists []. split; [reflexivity|constructor].
Qed.

Lemma hexPrefix_consumes (s : list Z) (hex : bool) (rest : list Z) :
  strconv.hexPrefix s = (hex, rest) ->
  exists read, s = read ++ rest /\ Forall (fun c => numericByte c = true) read.
Proof.
  unfold strconv.hexPrefix. intros H.
  assert (Hstop : (false, s) = (hex, rest) ->
            exists read, s = read ++ rest /\ Forall (fun c => numericByte c = true) read).
  { intros [= _ <-]. exists []. split; [reflexivity|constructor]. }
  destruct s as [|c [|x [|y s]]]; try now apply Hstop.
  destruct (c =? ch "0") eqn:Hc; [|now apply Hstop].
  destruct (strconv.lower x =? ch "x") eqn:Hx; [|now apply Hstop].
  simpl in H. injection H as _ <-.
  exists [c; x]. split; [reflexivity|].
  apply Z.eqb_eq in Hc, Hx. repeat constructor.
  - apply numericByte_digit, isDigit_spec. rewrite Hc. change (ch "0") with 48. lia.
  - apply (numericByte_lower x _ Hx). change (ch "x") with 120. lia.
Qed.

(** A string that [readFloat] reads to its end is made of numeric
    bytes. *)
Lemma readFloat_numeric (s : list Z) (hex : bool) (m e : Z) :
  strconv.readFloat s = Some (hex, m, e, []) ->
  Forall (fun c => numericByte c = true) s.
Proof.
  unfold strconv.readFloat. destruct s as [|c0 s']; [discriminate|].
  cbv zeta.
  assert (Hs1 : exists sign,
             c0 :: s' = sign ++ (if (c0 =? ch "+") || (c0 =? ch "-") then s' else c0 :: s')
             /\ Forall (fun c => numericByte c = true) sign).
  { destruct ((c0 =? ch "+") || (c0 =? ch "-")) eqn:Hsign.
    - exists [c0]. split; [reflexivity|]. repeat constructor. now apply numericByte_sign.
    - exists []. split; [reflexivity|constructor]. }
  destruct Hs1 as (sign & Hs & Hsign).
  revert Hs.
  generalize (if (c0 =? ch "+") || (c0 =? ch "-") then s' else c0 :: s').
  generalize (c0 :: s'). intros s s1 ->.
  destruct (strconv.hexPrefix s1) as [hex' s2] eqn:Hhex.
  destruct (hexPrefix_consumes _ _ _ Hhex) as (pre & -> & Hpre).
  destruct (strconv.readMantissa (if hex' then 16 else 10) s2
              (strconv.mkScan 0 0 0 false false false)) as [st s3] eqn:Hm.
  destruct (readMantissa_consumes _ _ _ _ _ Hm) as (mant & -> & Hmant).
  destruct (negb (strconv.sawdigits st)); [discriminate|].
  set (pair := if hex' then _ else _). destruct pair as [dp ndigits]. 
  assert (Hall : Forall (fun c => numericByte c = true) s3 ->
            Forall (fun c => numericByte c = true) (sign ++ pre ++ mant ++ s3)).
  { intros Htail. repeat (apply Forall_app; split); assumption. }
  revert Hall. generalize (sign ++ pre ++ mant ++ s3). intros whole Hall.
  destruct s3 as [|c s4].
  - intros _. apply Hall. constructor.
  - destruct (strconv.lower c =? (if hex' then ch "p" else ch "e")) eqn:Hexp.
    + destruct s4 as [|c' s5]; [discriminate|].
      destruct (if c' =? ch "+" then _ else _) as [esign s6] eqn:Hes.
      destruct s6 as [|c'' s7]; [discriminate|].
      destruct (negb (strconv.isDigit c'')); [discriminate|].
      destruct (strconv.readExponent (c'' :: s7) 0 (strconv.underscores st))
        as [[e0 us0] rest] eqn:He.
      destruct (us0 && _); [discriminate|].
      intros [= _ _ _ ->].
      destruct (readExponent_consumes _ _ _ _ _ _ He) as (digits & Hd & Hdigits).
      rewrite app_nil_r in Hd. subst digits.
      apply Hall. constructor.
      * apply Z.eqb_eq in Hexp. apply (numericByte_lower c _ Hexp).
        destruct hex'; [change (ch "p") with 112|change (ch "e") with 101]; lia.
      * destruct (c' =? ch "+") eqn:Hplus; [|destruct (c' =? ch "-") eqn:Hminus].
        -- injection Hes as _ ->. constructor; [|exact Hdigits].
           apply numericByte_sign. now rewrite Hplus.
        -- injection Hes as _ ->. constructor; [|exact Hdigits].
           apply numericByte_sign. now rewrite Hminus, orb_true_r.
        -- injection Hes as _ -> ->. exact Hdigits.
    + destruct hex'; [discriminate|].
      destruct (strconv.underscores st && _); discriminate.
Qed.

Lemma range_check (f : Z -> bool) (lo : Z) (n : nat) :
  forallb f (map (fun k => lo + Z.of_nat k) (seq 0 n)) = true ->
  forall c, lo <= c < lo + Z.of_nat n -> f c = true.
Proof.
  intros H c Hc. rewrite forallb_forall in H. apply H.
  apply in_map_iff. exists (Z.to_nat (c - lo)). split; [lia|].
  apply in_seq. lia.
Qed.

Lemma numericByte_letters (c : Z) :
  65 <= c <= 90 \/ 97 <= c <= 122 -> numericByte c = true.
Proof.
  intros [Hc|Hc].
  - apply (range_check numericByte 65 26); [vm_compute; reflexivity|lia].
  - apply (range_check numericByte 97 26); [vm_compute; reflexivity|lia].
Qed.

Lemma commonPrefixLen_le (s : list Z) :
  forall pre, 0 <= strconv.commonPrefixLenIgnoreCase s pre <= Z.of_nat (length s).
Proof.
  induction s as [|c s IH]; intros [|p pre]; simpl length; simpl; try lia.
  destruct (_ =? p); [|lia]. specialize (IH pre). lia.
Qed.

(** A string that matches a lower-case word to its own end, letter
    case apart, is made of letters. *)
Lemma commonPrefixLen_full (s : list Z) :
  forall pre,
    Forall (fun p => 97 <= p <= 122) pre ->
    strconv.commonPrefixLenIgnoreCase s pre = Z.of_nat (length s) ->
    Forall (fun c => numericByte c = true) s.
Proof.
  induction s as [|c s IH]; intros pre Hpre H; [constructor|].
  destruct pre as [|p pre]; [simpl in H; lia|].
  apply Forall_cons in Hpre as [Hp Hpre].
  cbn [strconv.commonPrefixLenIgnoreCase] in H. cbv zeta in H.
  unfold strconv.between in H.
  change (ch "A") with 65 in H. change (ch "Z") with 90 in H.
  change (ch "a" - 65) with 32 in H.
  simpl length in H.
  destruct ((65 <=? c) && (c <=? 90)) eqn:Hup.
  - apply andb_true_iff in Hup as [Hlo Hhi]. apply Z.leb_le in Hlo, Hhi.
    destruct (Z.eqb_spec (c + 32) p); [|lia].
    constructor; [apply numericByte_letters; lia|].
    apply (IH pre Hpre). lia.
  - destruct (Z.eqb_spec c p); [|lia].
    constructor; [apply numericByte_letters; lia|].
    apply (IH pre Hpre). lia.
Qed.

Lemma infinityPrefix_numeric (nsign : Z) (s : list Z) (n : Z) :
  strconv.infinityPrefix nsign s = Some n ->
  n = nsign + Z.of_nat (length s) ->
  Forall (fun c => numericByte c = true) s.
Proof.
  unfold strconv.infinityPrefix. cbv zeta.
  pose proof (commonPrefixLen_le s (bytes "infinity")) as Hle.
  intros H Hn.
  apply (commonPrefixLen_full s (bytes "infinity")).
  - change (bytes "infinity") with [105; 110; 102; 105; 110; 105; 116; 121].
    repeat constructor; lia.
  - destruct ((3 <? strconv.commonPrefixLenIgnoreCase s (bytes "infinity"))
              && (strconv.commonPrefixLenIgnoreCase s (bytes "infinity") <? 8)) eqn:Hclamp.
    + apply andb_true_iff in Hclamp as [H3 _]. apply Z.ltb_lt in H3.
      simpl in H. injection H as <-. lia.
    + destruct ((_ =? 3) || (_ =? 8)); [|discriminate].
      injection H as <-. lia.
Qed.

Lemma special_numeric (s : list Z) (n : Z) :
  strconv.special s = Some n ->
  n = Z.of_nat (length s) ->
  Forall (fun c => numericByte c = true) s.
Proof.
  unfold strconv.special. destruct s as [|c0 s']; [discriminate|].
  intros H Hn.
  destruct ((c0 =? ch "+") || (c0 =? ch "-")) eqn:Hsign.
  - constructor; [now apply numericByte_sign|].
    apply (infinityPrefix_numeric 1 s' n H). simpl length in Hn. lia.
  - destruct ((c0 =? ch "i") || (c0 =? ch "I")).
    + apply (infinityPrefix_numeric 0 (c0 :: s') n H). lia.
    + destruct ((c0 =? ch "n") || (c0 =? ch "N")); [|discriminate].
      destruct (Z.eqb_spec (strconv.commonPrefixLenIgnoreCase (c0 :: s') (bytes "nan")) 3)
        as [Hnan|]; [|discriminate].
      injection H as <-.
      apply (commonPrefixLen_full (c0 :: s') (bytes "nan")); [|lia].
      change (bytes "nan") with [110; 97; 110]. repeat constructor; lia.
Qed.

(** Whatever [ParseFloat] accepts is made of numeric bytes. *)
Lemma ParseFloat_numeric (s : string) (bitSize : Z) :
  strconv.ParseFloat s bitSize = None ->
  Forall (fun c => numericByte c = true) (bytes s).
Proof.
  unfold strconv.ParseFloat. cbv zeta.
  destruct (strconv.special (bytes s)) as [n|] eqn:Hspecial.
  - destruct (Z.eqb_spec n (Z.of_nat (length (bytes s)))); [|discriminate].
    intros _. now apply (special_numeric _ n).
  - destruct (strconv.readFloat (bytes s)) as [[[[hex m] e] rest]|] eqn:Hread;
      [|discriminate].
    destruct rest; [|discriminate].
    intros _. now apply (readFloat_numeric _ hex m e).
Qed.

(** And so is every base-10 integer literal. *)
Lemma intLiteral_numeric (s : string) (v : Z) :
  intLiteral s = Some v -> Forall (fun c => numericByte c = true) (bytes s).
Proof.
  unfold intLiteral. destruct (bytes s) as [|c0 s']; [discriminate|].
  assert (Hdigits : forall ds, allDigits ds = true ->
            Forall (fun c => numericByte c = true) ds).
  { intros ds Hds. apply Forall_forall. intros c Hc.
    apply numericByte_digit.
    unfold allDigits in Hds. rewrite forallb_forall in Hds.
    apply Hds. now apply list_elem_of_In. }
  destruct (c0 =? ch "+") eqn:Hplus; [|destruct (c0 =? ch "-") eqn:Hminus].
  - destruct s' as [|c ds]; [discriminate|].
    destruct (allDigits (c :: ds)) eqn:Hds; [|discriminate]. intros _.
    constructor; [apply numericByte_sign; now rewrite Hplus|now apply Hdigits].
  - destruct s' as [|c ds]; [discriminate|].
    destruct (allDigits (c :: ds)) eqn:Hds; [|discriminate]. intros _.
    constructor; [apply numericByte_sign; now rewrite Hminus, orb_true_r
                 |now apply Hdigits].
  - destruct (allDigits (c0 :: s')) eqn:Hds; [|discriminate]. intros _.
    now apply Hdigits.
Qed.

(** X12.  A cell that holds a byte other than a letter, a decimal
    digit, a sign, the point or the underscore (a space, a comma, a
    currency sign, a colon, a slash) probes as String, wherever the
    byte stands: neither parser skips or trims anything. *)
Theorem cell_with_other_byte_probes_String (s : string) (c : Z) :
  c ∈ bytes s ->
  numericByte c = false ->
  inferProbableTypeFromString s = FieldTypeString.
Proof.
  intros Hin Hc.
  assert (Hno : ~ Forall (fun c => numericByte c = true) (bytes s)).
  { intros Hall. rewrite Forall_forall in Hall. apply Hall in Hin. congruence. }
  destruct (infer_cases s) as [Hp|[Hp|Hp]]; [| |exact Hp].
  - destruct (probe_Integer_inv s Hp) as (_ & v & Hv & _).
    destruct Hno. now apply (intLiteral_numeric s v).
  - destruct Hno. apply (ParseFloat_numeric s 10). now apply probe_Float_inv.
Qed.

Lemma cell_with_other_byte_probes_String_witness :
  ch "," ∈ bytes "1,000" /\
  numericByte (ch ",") = false /\
  inferProbableTypeFromString "1,000" = FieldTypeString.
Proof.
  split; [vm_compute; apply list_elem_of_In; simpl; tauto|].
  split; [vm_compute; reflexivity|].
  apply (cell_with_other_byte_probes_String "1,000" (ch ","));
    [vm_compute; apply list_elem_of_In; simpl; tauto|vm_compute; reflexivity].
Defined.

(** ** Decimal fractions *)

Lemma readMantissa_digits_app (ds : list Z) :
  forall (tail : list Z) (st : strconv.scan),
    allDigits ds = true ->
    0 <= strconv.nd st ->
    (strconv.nd st = 0 -> strconv.mantissa st = 0) ->
    exists nd' dp',
      strconv.readMantissa 10 (ds ++ tail) st =
        strconv.readMantissa 10 tail
          (strconv.mkScan (accumulate ds (strconv.mantissa st)) nd' dp'
             (strconv.sawdot st)
             (strconv.sawdigits st || match ds with [] => false | _ => true end)
             (strconv.underscores st)) /\
      0 <= nd' /\
      (nd' = 0 -> accumulate ds (strconv.mantissa st) = 0) /\
      (strconv.sawdot st = true ->
       dp' - nd' = strconv.dp st - strconv.nd st - Z.of_nat (length ds)).
Proof.
  induction ds as [|c ds IH]; intros tail [m n d dot dig us] Hds Hn Hm;
    simpl in Hn, Hm.
  - exists n, d. simpl. rewrite orb_false_r.
    split; [reflexivity|]. split; [exact Hn|]. split; [exact Hm|]. intros _; lia.
  - simpl in Hds. apply andb_true_iff in Hds as [Hc Hds].
    pose proof (proj1 (isDigit_spec c) Hc) as Hc'.
    rewrite <- app_comm_cons.
    cbn [strconv.readMantissa strconv.mantissa strconv.nd strconv.dp strconv.sawdot
         strconv.sawdigits strconv.underscores].
    rewrite Hc. change (ch "_") with 95. change (ch ".") with 46. change (ch "0") with 48.
    destruct (Z.eqb_spec c 95); [lia|]. destruct (Z.eqb_spec c 46); [lia|].
    rewrite accumulate_cons.
    destruct ((c =? 48) && (n =? 0)) eqn:Hzero.
    + apply andb_true_iff in Hzero as [Hc0 Hn0].
      apply Z.eqb_eq in Hc0, Hn0. subst c n. rewrite (Hm eq_refl).
      destruct (IH tail (strconv.mkScan 0 0 (d - 1) dot true us) Hds)
        as (nd' & dp' & -> & Hnd & Hmant & Hdp); simpl; try lia.
      exists nd', dp'. simpl in *. rewrite orb_true_r.
      split; [reflexivity|]. split; [exact Hnd|]. split; [exact Hmant|].
      intros Hdot. specialize (Hdp Hdot). lia.
    + destruct (IH tail (strconv.mkScan (m * 10 + (c - 48)) (n + 1) d dot true us) Hds)
        as (nd' & dp' & -> & Hnd & Hmant & Hdp); simpl; try lia.
      exists nd', dp'. simpl in *. rewrite orb_true_r.
      split; [reflexivity|]. split; [exact Hnd|]. split; [exact Hmant|].
      intros Hdot. specialize (Hdp Hdot). lia.
Qed.

Lemma hexPrefix_fraction (ds1 ds2 : list Z) :
  allDigits ds1 = true ->
  strconv.hexPrefix (ds1 ++ ch "." :: ds2) = (false, ds1 ++ ch "." :: ds2).
Proof.
  intros Hds. unfold strconv.hexPrefix.
  destruct ds1 as [|c [|x ds1]]; simpl app.
  - destruct ds2 as [|y [|z ds2]]; reflexivity.
  - destruct ds2 as [|y ds2]; [reflexivity|].
    change (strconv.lower (ch ".") =? ch "x") with false.
    now rewrite andb_false_r.
  - simpl in Hds. apply andb_true_iff in Hds as [_ Hds].
    apply andb_true_iff in Hds as [Hx _]. apply isDigit_spec in Hx.
    destruct (ds1 ++ ch "." :: ds2) eqn:Happ; [now destruct ds1|].
    rewrite lower_digit by exact Hx. change (ch "x") with 120.
    destruct (Z.eqb_spec x 120); [lia|]. now rewrite andb_false_r.
Qed.

(** [readFloat] on digits, a point and digits, after the sign. *)
Lemma readFloat_fraction (c0 : Z) (s' ds1 ds2 : list Z) :
  (if (c0 =? ch "+") || (c0 =? ch "-") then s' else c0 :: s') = ds1 ++ ch "." :: ds2 ->
  allDigits ds1 = true -> allDigits ds2 = true -> ds1 ++ ds2 <> [] ->
  strconv.readFloat (c0 :: s') =
    Some (false, accumulate ds2 (digitsValue ds1), - Z.of_nat (length ds2), []).
Proof.
  intros Hsign Hds1 Hds2 Hne. unfold strconv.readFloat. cbv zeta.
  rewrite Hsign, (hexPrefix_fraction ds1 ds2 Hds1).
  destruct (readMantissa_digits_app ds1 (ch "." :: ds2)
              (strconv.mkScan 0 0 0 false false false) Hds1)
    as (nd1 & dp1 & -> & Hnd1 & Hm1 & _); simpl; try lia.
  change (ch "." =? ch "_") with false. change (ch "." =? ch ".") with true.
  cbv iota.
  rewrite <- (app_nil_r ds2) at 1.
  fold (digitsValue ds1) in *.
  destruct (readMantissa_digits_app ds2 []
              (strconv.mkScan (digitsValue ds1) nd1 nd1 true
                 (match ds1 with [] => false | _ => true end) false) Hds2)
    as (nd2 & dp2 & -> & Hnd2 & Hm2 & Hdp); simpl; try assumption.
  simpl in Hdp. specialize (Hdp eq_refl).
  replace (match ds1 with [] => false | _ => true end
           || match ds2 with [] => false | _ => true end) with true
    by (destruct ds1, ds2; try reflexivity; now destruct Hne).
  simpl. repeat f_equal. lia.
Qed.

Lemma accumulate_lt (ds : list Z) :
  forall n, allDigits ds = true -> 0 <= n ->
            accumulate ds n < (n + 1) * 10 ^ Z.of_nat (length ds).
Proof.
  induction ds as [|c ds IH]; intros n Hds Hn.
  - unfold accumulate; simpl. lia.
  - simpl in Hds. apply andb_true_iff in Hds as [Hc Hds].
    apply isDigit_spec in Hc. rewrite accumulate_cons.
    specialize (IH (n * 10 + (c - 48)) Hds ltac:(lia)).
    simpl length. rewrite Nat2Z.inj_succ, Z.pow_succ_r by lia.
    assert (Hpow : 0 < 10 ^ Z.of_nat (length ds)) by (apply Z.pow_pos_nonneg; lia).
    nia.
Qed.

Lemma overflows_fraction (v : Z) (ds : list Z) :
  allDigits ds = true ->
  0 <= v < 2 ^ 1024 - 2 ^ 970 ->
  strconv.overflows 10 (accumulate ds v) 10 (- Z.of_nat (length ds)) = false.
Proof.
  intros Hds Hv. unfold strconv.overflows.
  change (strconv.overflowThreshold 10) with (2 ^ 1024 - 2 ^ 970).
  destruct (accumulate ds v =? 0); [reflexivity|].
  pose proof (accumulate_lt ds v Hds ltac:(lia)) as Hlt.
  assert (Hpow : 0 < 10 ^ Z.of_nat (length ds)) by (apply Z.pow_pos_nonneg; lia).
  destruct (Z.leb_spec 0 (- Z.of_nat (length ds))) as [Hzero|Hneg].
  - assert (Hlen : Z.of_nat (length ds) = 0) by lia.
    rewrite Hlen in *. simpl Z.opp. rewrite Z.pow_0_r, Z.mul_1_r in *.
    apply Z.leb_gt. lia.
  - rewrite Z.opp_involutive. apply Z.leb_gt.
    eapply Z.lt_le_trans; [exact Hlt|].
    apply Z.mul_le_mono_nonneg_r; lia.
Qed.

Lemma special_below_letters (c : Z) (s : list Z) :
  (c =? ch "+") || (c =? ch "-") = false -> c < 65 ->
  strconv.special (c :: s) = None.
Proof.
  intros Hsign Hc. unfold strconv.special. rewrite Hsign.
  change (ch "i") with 105. change (ch "I") with 73.
  change (ch "n") with 110. change (ch "N") with 78.
  Zcompare; try lia; reflexivity.
Qed.

Lemma special_signed_below_letters (c0 c : Z) (s : list Z) :
  (c0 =? ch "+") || (c0 =? ch "-") = true -> c < 65 ->
  strconv.special (c0 :: c :: s) = None.
Proof.
  intros Hsign Hc. unfold strconv.special. rewrite Hsign.
  unfold strconv.infinityPrefix.
  change (bytes "infinity") with [105; 110; 102; 105; 110; 105; 116; 121].
  cbn [strconv.commonPrefixLenIgnoreCase].
  unfold strconv.between. change (ch "A") with 65.
  destruct (Z.leb_spec 65 c); [lia|]. simpl.
  destruct (Z.eqb_spec c 105); [lia|reflexivity].
Qed.

Lemma allDigits_fraction (ds1 ds2 : list Z) :
  allDigits (ds1 ++ ch "." :: ds2) = false.
Proof.
  unfold allDigits. rewrite forallb_app. simpl.
  change (strconv.isDigit (ch ".")) with false. simpl. apply andb_false_r.
Qed.

Lemma head_of_fraction (ds1 ds2 : list Z) :
  allDigits ds1 = true ->
  exists c rest,
    ds1 ++ ch "." :: ds2 = c :: rest /\ 46 <= c <= 57.
Proof.
  intros Hds. destruct ds1 as [|d ds1].
  - exists (ch "."), ds2. split; [reflexivity|]. change (ch ".") with 46. lia.
  - exists d, (ds1 ++ ch "." :: ds2). split; [reflexivity|].
    simpl in Hds. apply andb_true_iff in Hds as [Hd _].
    apply isDigit_spec in Hd. lia.
Qed.

(** X13.  A decimal fraction probes as Float: an optional sign, decimal
    digits, a point and decimal digits, with a digit on at least one
    side of the point and an integer part that a [float64] can hold. *)
Theorem decimal_fraction_probes_Float (s : string) (sign ds1 ds2 : list Z) :
  bytes s = sign ++ ds1 ++ ch "." :: ds2 ->
  sign = [] \/ sign = [ch "+"] \/ sign = [ch "-"] ->
  allDigits ds1 = true ->
  allDigits ds2 = true ->
  ds1 ++ ds2 <> [] ->
  digitsValue ds1 < 2 ^ 1024 - 2 ^ 970 ->
  inferProbableTypeFromString s = FieldTypeFloat.
Proof.
  intros Hb Hsign Hds1 Hds2 Hne Hfin.
  destruct (head_of_fraction ds1 ds2 Hds1) as (h & rest & Hbody & Hh).
  assert (Hshape : exists c0 s',
             bytes s = c0 :: s' /\
             (if c0 =? ch "+" then (false, s')
              else if c0 =? ch "-" then (true, s')
              else (false, c0 :: s')).2 = ds1 ++ ch "." :: ds2 /\
             (if (c0 =? ch "+") || (c0 =? ch "-") then s' else c0 :: s')
               = ds1 ++ ch "." :: ds2 /\
             strconv.special (c0 :: s') = None).
  { change (ch "+") with 43 in *. change (ch "-") with 45 in *.
    destruct Hsign as [->|[->| ->]]; simpl in Hb.
    - exists h, rest. rewrite Hb, Hbody.
      destruct (Z.eqb_spec h 43); [lia|]. destruct (Z.eqb_spec h 45); [lia|].
      repeat split. apply special_below_letters; [|lia].
      change (ch "+") with 43. change (ch "-") with 45.
      destruct (Z.eqb_spec h 43); [lia|]. destruct (Z.eqb_spec h 45); [lia|].
      reflexivity.
    - exists 43, (ds1 ++ ch "." :: ds2). rewrite Hb. repeat split.
      rewrite Hbody. apply special_signed_below_letters; [reflexivity|lia].
    - exists 45, (ds1 ++ ch "." :: ds2). rewrite Hb. repeat split.
      rewrite Hbody. apply special_signed_below_letters; [reflexivity|lia]. }
  destruct Hshape as (c0 & s' & Hbytes & Hint & Hfloat & Hspecial).
  assert (Hlit : intLiteral s = None).
  { unfold intLiteral. rewrite Hbytes.
    destruct (if c0 =? ch "+" then _ else _) as [neg ds]. simpl in Hint. subst ds.
    rewrite Hbody, <- Hbody, allDigits_fraction. reflexivity. }
  assert (Hpf : strconv.ParseFloat s 10 = None).
  { unfold strconv.ParseFloat. cbv zeta. rewrite Hbytes, Hspecial.
    rewrite (readFloat_fraction c0 s' ds1 ds2 Hfloat Hds1 Hds2 Hne).
    rewrite overflows_fraction; [reflexivity|exact Hds2|].
    pose proof (accumulate_ge ds1 0 Hds1 ltac:(lia)). unfold digitsValue in *. lia. }
  unfold inferProbableTypeFromString.
  pose proof (ParseInt_spec s) as Hspec. rewrite Hlit in Hspec.
  destruct Hspec as [e He].
  destruct (strconv.ParseInt s 10 64) as [n err]. simpl in He. subst err.
  now rewrite Hpf.
Qed.

Lemma decimal_fraction_probes_Float_witness :
  bytes "-9.99" = [ch "-"] ++ [ch "9"] ++ ch "." :: [ch "9"; ch "9"] /\
  inferProbableTypeFromString "-9.99" = FieldTypeFloat.
Proof.
  split; [reflexivity|].
  apply (decimal_fraction_probes_Float "-9.99" [ch "-"] [ch "9"] [ch "9"; ch "9"]);
    [reflexivity|right; right; reflexivity|reflexivity|reflexivity|discriminate
    |vm_compute; reflexivity].
Defined.
